(** * A private blockchain: the [Block] and [Blockchain] classes of block.js

    The development embeds the two JavaScript classes of [src/block.js]
    and proves the properties of the ledger: hash links, sealing and
    tamper detection, the append protocol, the ownership challenge gate
    and the queries.

    Conventions of the embedding.
    - A JavaScript string is a [string]: a sequence of code units below
      256.  A JavaScript number that the program only uses as an integer
      is a [Z]; [NaN] is the [None] of an [option Z].
    - A [Block] instance is an object on a heap; a variable holding a block
      holds a reference, and the chain array holds references.
    - A promise is described by the way it settles: [Resolved],
      [Rejected], or [Pending] when neither callback is ever called.
    - The clock ([new Date().getTime()]) is an argument of every operation
      that reads it.
    - The operations run one at a time, each to its end.  [_addBlock]
      assigns and pushes before its first [await], so what it does to the
      chain is one step whatever else is pending. *)

From Stdlib Require Import ZArith List String Ascii Bool Lia.
Import ListNotations.

Open Scope string_scope.
Open Scope list_scope.
Open Scope Z_scope.

Infix "+++" := String.append (right associativity, at level 60).

(** ** Strings *)

Module Str.

(** [s.slice(0, -k)]: the string without its last [k] code units, empty
    when the string has no more than [k] of them. *)
Definition slice_0_neg (k : nat) (s : string) : string :=
  substring 0 (String.length s - k) s.

(** [s.split(sep)] for a separator of one code unit. *)
Fixpoint split (sep : ascii) (s : string) : list string :=
  match s with
  | "" => [""]
  | String c s' =>
      match split sep s' with
      | [] => [""]
      | w :: ws => if Ascii.eqb c sep then "" :: w :: ws else String c w :: ws
      end
  end.

(** The code unit occurs in the string. *)
Fixpoint contains (c : ascii) (s : string) : bool :=
  match s with
  | "" => false
  | String x s' => Ascii.eqb x c || contains c s'
  end.

End Str.

(** ** Numbers as text *)

Module Num.

Definition digit_char (d : Z) : ascii := ascii_of_nat (48 + Z.to_nat d).

(** The decimal digits of a natural number, most significant first.  The
    fuel bounds the number of divisions by ten. *)
Fixpoint digits_from (fuel : nat) (n : Z) (acc : string) : string :=
  let acc' := String (digit_char (n mod 10)) acc in
  match fuel with
  | O => acc'
  | S f => if n <? 10 then acc' else digits_from f (n / 10) acc'
  end.

Definition nat_digits (n : Z) : string :=
  digits_from (Z.to_nat (Z.log2 n)) n "".

(** [Number.prototype.toString] on an integer (below 10^21 in absolute
    value, where JavaScript prints every digit). *)
Definition toString (z : Z) : string :=
  if z <? 0 then String "-" (nat_digits (- z)) else nat_digits z.

(** *** Reading digits back *)

Definition is_digit (c : ascii) : bool :=
  let n := nat_of_ascii c in (48 <=? n)%nat && (n <=? 57)%nat.

Definition digit_of (c : ascii) : Z := Z.of_nat (nat_of_ascii c) - 48.

#[global] Arguments digit_char : simpl never.
#[global] Arguments is_digit : simpl never.
#[global] Arguments digit_of : simpl never.

(** Reads the longest prefix of decimal digits into an accumulator and
    returns the text that follows it. *)
Fixpoint read_nat (s : string) (acc : Z) : Z * string :=
  match s with
  | String c s' =>
      if is_digit c then read_nat s' (acc * 10 + digit_of c) else (acc, s)
  | "" => (acc, "")
  end.

(** A text that cannot continue a number: empty or starting with a code
    unit that is not a digit. *)
Definition stops (r : string) : Prop :=
  match r with String c _ => is_digit c = false | "" => True end.

(** *** [parseInt] *)

(** White space of [parseInt] among the code units below 256. *)
Definition is_white (c : ascii) : bool :=
  let n := nat_of_ascii c in
  ((9 <=? n)%nat && (n <=? 13)%nat) || (n =? 32)%nat || (n =? 160)%nat.

Fixpoint trim_start (s : string) : string :=
  match s with
  | String c s' => if is_white c then trim_start s' else s
  | "" => ""
  end.

(** The value of a code unit as a digit of the given radix. *)
Definition radix_digit (radix : Z) (c : ascii) : option Z :=
  let n := Z.of_nat (nat_of_ascii c) in
  let v := if (48 <=? n) && (n <=? 57) then Some (n - 48)
           else if (97 <=? n) && (n <=? 122) then Some (n - 87)
           else if (65 <=? n) && (n <=? 90) then Some (n - 55)
           else None in
  match v with
  | Some d => if d <? radix then Some d else None
  | None => None
  end.

(** The value of the longest prefix of digits; [None] ([NaN]) when there
    is no digit at all. *)
Fixpoint parse_digits (radix : Z) (s : string) (acc : option Z) : option Z :=
  match s with
  | String c s' =>
      match radix_digit radix c with
      | Some d =>
          parse_digits radix s'
            (Some (match acc with Some a => a * radix + d | None => d end))
      | None => acc
      end
  | "" => acc
  end.

(** [parseInt(s)] without a radix: leading white space, a sign, a [0x]
    prefix for radix 16, then digits; anything after them is ignored.
    The result is the mathematical value: the program only compares the
    difference of two such values with 300, and the rounding of a
    JavaScript number to a double is monotone and exact on the integers
    around 300, so the comparison is the same. *)
Definition parseInt (s : string) : option Z :=
  let s1 := trim_start s in
  let '(sign, s2) :=
    match s1 with
    | String c r =>
        if (c =? "-")%char then (-1, r)
        else if (c =? "+")%char then (1, r)
        else (1, s1)
    | "" => (1, s1)
    end in
  let '(radix, s3) :=
    match s2 with
    | String c (String x r) =>
        if (c =? "0")%char && ((x =? "x")%char || (x =? "X")%char)
        then (16, r)
        else (10, s2)
    | _ => (10, s2)
    end in
  option_map (Z.mul sign) (parse_digits radix s3 None).

(** [Number.isSafeInteger]: the integers that are numbers of JavaScript
    one by one.  On them [toString] is the text JavaScript gives; past
    them a number is rounded, and from 10^21 on JavaScript prints it with
    an exponent where [toString] prints all the digits. *)
Definition isSafeInteger (z : Z) : Prop := Z.abs z <= 2 ^ 53 - 1.

(** Every code unit is a decimal digit. *)
Fixpoint all_digits (s : string) : bool :=
  match s with
  | "" => true
  | String c s' => is_digit c && all_digits s'
  end.

End Num.

(** ** The clock *)

(** [new Date().getTime().toString().slice(0, -3)] when the clock reads
    [now] milliseconds. *)
Definition seconds_text (now : Z) : string :=
  Str.slice_0_neg 3 (Num.toString now).

(** ** JSON values and [JSON.stringify] *)

Module JSON.

(** The values a payload is made of.  Numbers are the integers. *)
#[warnings="-register-all"]
Inductive json : Type :=
  | JNull
  | JBool (b : bool)
  | JNum (z : Z)
  | JStr (s : string)
  | JArr (items : list json)
  | JObj (members : list (string * json)).

Definition dq : ascii := "034"%char.
Definition bs : ascii := "092"%char.

Definition hex_nibble (b0 b1 b2 b3 : bool) : ascii :=
  match b3, b2, b1, b0 with
  | false, false, false, false => "0" | false, false, false, true => "1"
  | false, false, true, false => "2"  | false, false, true, true => "3"
  | false, true, false, false => "4"  | false, true, false, true => "5"
  | false, true, true, false => "6"   | false, true, true, true => "7"
  | true, false, false, false => "8"  | true, false, false, true => "9"
  | true, false, true, false => "a"   | true, false, true, true => "b"
  | true, true, false, false => "c"   | true, true, false, true => "d"
  | true, true, true, false => "e"    | true, true, true, true => "f"
  end%char.

(** One code unit inside a JSON string: the quote and the backslash are
    escaped, the control characters have their short or [\u00xx] form. *)
Definition escape_char (c : ascii) : string :=
  match c with
  | "034" => String bs (String dq "")
  | "092" => String bs (String bs "")
  | "008" => String bs "b"
  | "012" => String bs "f"
  | "010" => String bs "n"
  | "013" => String bs "r"
  | "009" => String bs "t"
  | Ascii b0 b1 b2 b3 b4 false false false =>
      String bs ("u00" +++
        String (if b4 then "1" else "0") (String (hex_nibble b0 b1 b2 b3) ""))
  | _ => String c ""
  end%char.

Fixpoint escape (s : string) : string :=
  match s with
  | "" => ""
  | String c s' => escape_char c +++ escape s'
  end.

Definition quote (s : string) : string :=
  String dq (escape s +++ String dq "").

#[global] Arguments quote : simpl never.

Fixpoint stringify (v : json) : string :=
  match v with
  | JNull => "null"
  | JBool true => "true"
  | JBool false => "false"
  | JNum z => Num.toString z
  | JStr s => quote s
  | JArr items =>
      "[" +++
      (fix elements (l : list json) : string :=
         match l with
         | [] => ""
         | x :: l' =>
             match l' with
             | [] => stringify x
             | _ :: _ => stringify x +++ "," +++ elements l'
             end
         end) items +++ "]"
  | JObj members =>
      "{" +++
      (fix properties (l : list (string * json)) : string :=
         match l with
         | [] => ""
         | (k, x) :: l' =>
             match l' with
             | [] => quote k +++ ":" +++ stringify x
             | _ :: _ => quote k +++ ":" +++ stringify x +++ "," +++ properties l'
             end
         end) members +++ "}"
  end.

(** [v.key] for a parsed value: the member of an object (a parsed object
    has every key once), [undefined] ([None]) for a missing key and for
    every value that is not an object. *)
Definition get (v : json) (key : string) : option json :=
  match v with
  | JObj members =>
      option_map snd (find (fun kv => String.eqb (fst kv) key) members)
  | _ => None
  end.

(** Truthiness, as in [if (data && ...)]. *)
Definition truthy (v : json) : bool :=
  match v with
  | JNull => false
  | JBool b => b
  | JNum z => negb (z =? 0)
  | JStr s => negb (String.eqb s "")
  | JArr _ | JObj _ => true
  end.

(** *** Strings in quotes are a prefix code *)

Definition hex_value (c : ascii) : option nat :=
  let n := nat_of_ascii c in
  if ((48 <=? n) && (n <=? 57))%nat then Some (n - 48)%nat
  else if ((97 <=? n) && (n <=? 102))%nat then Some (n - 87)%nat
  else None.

(** Reads one escaped code unit back; fails on the closing quote. *)
Definition unescape_char (s : string) : option (ascii * string) :=
  match s with
  | EmptyString => None
  | String "034" _ => None
  | String "092" (String "034" r) => Some (dq, r)
  | String "092" (String "092" r) => Some (bs, r)
  | String "092" (String "b" r) => Some ("008", r)
  | String "092" (String "f" r) => Some ("012", r)
  | String "092" (String "n" r) => Some ("010", r)
  | String "092" (String "r" r) => Some ("013", r)
  | String "092" (String "t" r) => Some ("009", r)
  | String "092" (String "u" (String "0" (String "0" (String h (String l r))))) =>
      match hex_value h, hex_value l with
      | Some x, Some y => Some (ascii_of_nat (16 * x + y), r)
      | _, _ => None
      end
  | String "092" _ => None
  | String c r => Some (c, r)
  end%char.

End JSON.

(** ** [Buffer.from(text).toString('hex')] *)

Module Buffer.

Definition hex_digit (n : nat) : ascii :=
  match n with
  | 0 => "0" | 1 => "1" | 2 => "2" | 3 => "3" | 4 => "4" | 5 => "5"
  | 6 => "6" | 7 => "7" | 8 => "8" | 9 => "9" | 10 => "a" | 11 => "b"
  | 12 => "c" | 13 => "d" | 14 => "e" | _ => "f"
  end%nat%char.

Definition hex_byte (n : nat) (rest : string) : string :=
  String (hex_digit (n / 16)) (String (hex_digit (n mod 16)) rest).

(** UTF-8 of the code units below 256, two hexadecimal digits a byte. *)
Fixpoint hex (s : string) : string :=
  match s with
  | "" => ""
  | String c s' =>
      let n := nat_of_ascii c in
      if (n <? 128)%nat then hex_byte n (hex s')
      else hex_byte (192 + n / 64) (hex_byte (128 + n mod 64) (hex s'))
  end.

End Buffer.

(** ** Promises and the libraries the program requires *)

(** What a promise is rejected with. *)
Inductive Reason : Type :=
  | Error (message : string)    (* [new Error(message)] *)
  | SyntaxError                 (* thrown by [JSON.parse] *)
  | Text (message : string).    (* a plain string *)

(** How a promise settles; [Pending] is a promise neither resolved nor
    rejected by the code that owns it. *)
Inductive Promise (A : Type) : Type :=
  | Resolved (value : A)
  | Rejected (reason : Reason)
  | Pending.

Arguments Resolved {A} value.
Arguments Rejected {A} reason.
Arguments Pending {A}.

(** The result of [bitcoinMessage.verify]: a boolean, or an exception for
    a signature it cannot decode. *)
Inductive Verdict : Type := Valid | Invalid | Throws.

(** The modules the program loads with [require], and [JSON.parse]. *)
Class Libs : Type := {
  (** [SHA256(text).toString()] of crypto-js *)
  SHA256 : string -> string;
  (** [hex2ascii(text)] *)
  hex2ascii : string -> string;
  (** [JSON.parse(text)]; [None] when it throws a [SyntaxError] *)
  JSON_parse : string -> option JSON.json;
  (** [bitcoinMessage.verify(message, address, signature)] *)
  bitcoinMessage_verify : string -> string -> string -> Verdict
}.

(** ** The [Block] class *)

Module Block.

(** The [time] property holds the number [0] from the constructor on and
    a string once the chain has sealed the block. *)
Inductive Time : Type :=
  | TNum (z : Z)
  | TStr (s : string).

(** The own properties of a [Block], in the order the constructor creates
    them. *)
Record t : Type := {
  hash : option string;
  height : Z;
  body : string;
  time : Time;
  previousBlockHash : option string
}.

Definition set_hash (v : option string) (b : t) : t :=
  {| hash := v; height := height b; body := body b; time := time b;
     previousBlockHash := previousBlockHash b |}.

Definition set_height (v : Z) (b : t) : t :=
  {| hash := hash b; height := v; body := body b; time := time b;
     previousBlockHash := previousBlockHash b |}.

Definition set_body (v : string) (b : t) : t :=
  {| hash := hash b; height := height b; body := v; time := time b;
     previousBlockHash := previousBlockHash b |}.

Definition set_time (v : Time) (b : t) : t :=
  {| hash := hash b; height := height b; body := body b; time := v;
     previousBlockHash := previousBlockHash b |}.

Definition set_previousBlockHash (v : option string) (b : t) : t :=
  {| hash := hash b; height := height b; body := body b; time := time b;
     previousBlockHash := v |}.

(** [constructor(data)] *)
Definition new (data : JSON.json) : t :=
  {| hash := None;
     height := 0;
     body := Buffer.hex (JSON.stringify data);
     time := TNum 0;
     previousBlockHash := None |}.

Definition string_or_null (v : option string) : JSON.json :=
  match v with
  | None => JSON.JNull
  | Some s => JSON.JStr s
  end.

Definition time_value (v : Time) : JSON.json :=
  match v with
  | TNum z => JSON.JNum z
  | TStr s => JSON.JStr s
  end.

(** The block as [JSON.stringify] sees it. *)
Definition own_properties (b : t) : JSON.json :=
  JSON.JObj
    [ ("hash", string_or_null (hash b));
      ("height", JSON.JNum (height b));
      ("body", JSON.JStr (body b));
      ("time", time_value (time b));
      ("previousBlockHash", string_or_null (previousBlockHash b)) ].

(** The comparison [currentHash === recalculatedHash]. *)
Definition strict_equal (v : option string) (s : string) : bool :=
  match v with
  | Some h => String.eqb h s
  | None => false
  end.

Section Methods.
Context `{Libs}.

(** [validate()] *)
Definition validate (self : t) : Promise bool :=
  let currentHash := hash self in
  (* { ...self, hash: null } keeps the place of every key *)
  let blockString := JSON.stringify (own_properties (set_hash None self)) in
  let recalculatedHash := SHA256 blockString in
  if strict_equal currentHash recalculatedHash
  then Resolved true
  else Resolved false.

(** [getBData()].  An exception of [JSON.parse] inside the executor
    rejects the promise. *)
Definition getBData (self : t) : Promise JSON.json :=
  let encodedData := body self in
  let decodedData := hex2ascii encodedData in
  match JSON_parse decodedData with
  | None => Rejected SyntaxError
  | Some blockObject =>
      if height self =? 0
      then Rejected (Error "Genesis block doesn't contain data.")
      else Resolved blockObject
  end.

End Methods.

End Block.

(** ** A block with any value in its properties

    The chain and the constructor put a string, an integer or [null]
    into the properties of a block; an assignment from outside can put
    other values there.  [Raw] has the values that [JSON.stringify] writes
    like one of those three: a number that is not finite, and a [String]
    object. *)

Module Raw.

Inductive value : Type :=
  | Null
  | Int (z : Z)
  | NaN
  | Infinity (negative : bool)
  | Str (s : string)
  | StringObject (s : string).   (* [new String(s)] *)

Record block : Type := {
  hash : value;
  height : value;
  body : value;
  time : value;
  previousBlockHash : value
}.

Definition with_hash (v : value) (b : block) : block :=
  {| hash := v; height := height b; body := body b; time := time b;
     previousBlockHash := previousBlockHash b |}.

Definition with_time (v : value) (b : block) : block :=
  {| hash := hash b; height := height b; body := body b; time := v;
     previousBlockHash := previousBlockHash b |}.

Definition with_previousBlockHash (v : value) (b : block) : block :=
  {| hash := hash b; height := height b; body := body b; time := time b;
     previousBlockHash := v |}.

(** What [JSON.stringify] writes for a value: [null] for a number that is
    not finite, its string for a [String] object. *)
Definition written (v : value) : JSON.json :=
  match v with
  | Null | NaN | Infinity _ => JSON.JNull
  | Int z => JSON.JNum z
  | Str s | StringObject s => JSON.JStr s
  end.

Definition own_properties (b : block) : JSON.json :=
  JSON.JObj
    [ ("hash", written (hash b));
      ("height", written (height b));
      ("body", written (body b));
      ("time", written (time b));
      ("previousBlockHash", written (previousBlockHash b)) ].

(** [currentHash === recalculatedHash]: only a string is strictly equal
    to a string. *)
Definition strict_equal (v : value) (s : string) : bool :=
  match v with
  | Str h => String.eqb h s
  | _ => false
  end.

Section Methods.
Context `{Libs}.

(** [validate()], as in [Block.validate]. *)
Definition validate (self : block) : Promise bool :=
  let currentHash := hash self in
  let blockString := JSON.stringify (own_properties (with_hash Null self)) in
  let recalculatedHash := SHA256 blockString in
  if strict_equal currentHash recalculatedHash
  then Resolved true
  else Resolved false.

End Methods.

Definition of_string_or_null (v : option string) : value :=
  match v with
  | None => Null
  | Some s => Str s
  end.

Definition of_time (v : Block.Time) : value :=
  match v with
  | Block.TNum z => Int z
  | Block.TStr s => Str s
  end.

(** A block of the program as a block with any value. *)
Definition of_block (b : Block.t) : block :=
  {| hash := of_string_or_null (Block.hash b);
     height := Int (Block.height b);
     body := Str (Block.body b);
     time := of_time (Block.time b);
     previousBlockHash := of_string_or_null (Block.previousBlockHash b) |}.

(** The block of the program with the properties of a block whose
    values are of the program's kinds. *)
Definition to_block (b : block) : Block.t :=
  {| Block.hash := match hash b with Str s => Some s | _ => None end;
     Block.height := match height b with Int z => z | _ => 0 end;
     Block.body := match body b with Str s => s | _ => "" end;
     Block.time := match time b with
                   | Str s => Block.TStr s
                   | Int z => Block.TNum z
                   | _ => Block.TNum 0
                   end;
     Block.previousBlockHash :=
       match previousBlockHash b with Str s => Some s | _ => None end |}.

(** The values the program itself assigns: [null] or a string for the two
    hashes, a safe integer for the height, a string for the body, a safe
    integer or a string for the time. *)
Definition string_or_null (v : value) : Prop :=
  match v with
  | Null | Str _ => True
  | _ => False
  end.

Definition plain (b : block) : Prop :=
  string_or_null (hash b) /\
  match height b with Int z => Num.isSafeInteger z | _ => False end /\
  match body b with Str _ => True | _ => False end /\
  match time b with Int z => Num.isSafeInteger z | Str _ => True | _ => False end /\
  string_or_null (previousBlockHash b).

End Raw.

(** ** The [Blockchain] class *)

Module Blockchain.

(** The blocks are objects: [heap] maps a reference to the object it
    denotes and [next] is the first reference not yet handed out by
    [new Block(...)].  [chain] and [height] are the two properties of the
    [Blockchain] instance. *)
Record State : Type := {
  heap : nat -> Block.t;
  next : nat;
  chain : list nat;
  height : Z
}.

(** Assignment to a property of the object behind a reference. *)
Definition update (r : nat) (f : Block.t -> Block.t) (h : nat -> Block.t)
  : nat -> Block.t :=
  fun x => if Nat.eqb x r then f (h x) else h x.

(** [new BlockClass.Block(data)] *)
Definition new_Block (self : State) (data : JSON.json) : State * nat :=
  ( {| heap := fun x => if Nat.eqb x (next self) then Block.new data else heap self x;
       next := S (next self);
       chain := chain self;
       height := height self |},
    next self ).

(** The error line of [validateChain] for a block. *)
Definition not_valid (blockHeight : Z) : string :=
  "Block " +++ Num.toString blockHeight +++ " is not valid.".

(** [requestMessageOwnershipVerification(address)] *)
Definition requestMessageOwnershipVerification (address : string) (now : Z)
  : Promise string :=
  Resolved (address +++ ":" +++ seconds_text now +++ ":starRegistry").

(** [parseInt(message.split(':')[1])]; a missing field is [undefined],
    which [parseInt] reads as the text of that word. *)
Definition timeInMessage (message : string) : option Z :=
  Num.parseInt (nth 1 (Str.split ":" message) "undefined").

(** [parseInt(new Date().getTime().toString().slice(0, -3))] *)
Definition currentTime (now : Z) : option Z :=
  Num.parseInt (seconds_text now).

(** [currentTime - timeInMessage > 300]; a comparison with [NaN] is false. *)
Definition elapsed_over (limit : Z) (current message : option Z) : bool :=
  match current, message with
  | Some c, Some m => limit <? c - m
  | _, _ => false
  end.

(** What [submitStar] leaves behind: the state, the promise it returned
    and the calls it made to the signature verifier. *)
Record Submission : Type := {
  after : State;
  promise : Promise nat;
  verified : list (string * string * string)
}.

(** What [getStarsByWalletAddress] does, step by step: the contents of the
    array [stars] at the call of [resolve(stars)], the continuations
    suspended at their [await] at that moment, the contents of the same
    array once these continuations have run, and the rejections nobody
    handles. *)
Record Stars : Type := {
  at_resolve : list JSON.json;
  suspended : list (Promise JSON.json);
  at_rest : list JSON.json;
  unhandled : list Reason
}.

Section Methods.
Context `{Libs}.

(** The loop of [validateChain()] over the blocks still to visit. *)
Fixpoint validate_loop (h : nat -> Block.t) (blocks : list nat)
    (errorLog : list string) : list string :=
  match blocks with
  | [] => errorLog
  | block :: rest =>
      match Block.validate (h block) with
      | Resolved false =>
          validate_loop h rest
            (errorLog ++ [not_valid (Block.height (h block))])
      | _ => validate_loop h rest errorLog
      end
  end.

(** [validateChain()] *)
Definition validateChain (self : State) : Promise (list string) :=
  Resolved (validate_loop (heap self) (chain self) []).

(** The two assignments that end the sealing of a block: the time and
    the hash of the block as it then is. *)
Definition stamp (now : Z) (block : nat) (h : nat -> Block.t) : nat -> Block.t :=
  let h := update block (Block.set_time (Block.TStr (seconds_text now))) h in
  update block
    (fun b => Block.set_hash
                (Some (SHA256 (JSON.stringify (Block.own_properties b)))) b) h.

(** [_addBlock(block)] *)
Definition _addBlock (self : State) (block : nat) (now : Z)
  : State * Promise nat :=
  match chain self with
  | [] =>
      let h := update block (Block.set_height 0) (heap self) in
      let h := stamp now block h in
      ( {| heap := h; next := next self;
           chain := chain self ++ [block]; height := 0 |},
        Resolved block )
  | _ :: _ =>
      let previousBlock := last (chain self) O in
      let h := heap self in
      let h := update block
                 (Block.set_height (Block.height (h previousBlock) + 1)) h in
      let h := update block
                 (Block.set_previousBlockHash (Block.hash (h previousBlock))) h in
      let h := stamp now block h in
      let self' := {| heap := h; next := next self;
                      chain := chain self ++ [block];
                      height := Block.height (h block) |} in
      match validateChain self' with
      | Resolved [] => (self', Resolved block)
      | Resolved (_ :: _) => (self', Rejected (Error "Chain validation failed."))
      | Rejected error => (self', Rejected error)
      | Pending => (self', Pending)
      end
  end.

(** The hash assignment of the sealing: the digest of the block as it is,
    with the hash it has at that moment. *)
Definition seal (b : Block.t) : Block.t :=
  Block.set_hash (Some (SHA256 (JSON.stringify (Block.own_properties b)))) b.

(** The block given to [_addBlock] after the assignments to its height,
    its link and its time, before the assignment to its hash. *)
Definition prepared (self : State) (block : nat) (now : Z) : Block.t :=
  let b := heap self block in
  Block.set_time (Block.TStr (seconds_text now))
    match chain self with
    | [] => Block.set_height 0 b
    | _ :: _ =>
        let previousBlock := heap self (last (chain self) O) in
        Block.set_previousBlockHash (Block.hash previousBlock)
          (Block.set_height (Block.height previousBlock + 1) b)
    end.

(** [initializeChain()] *)
Definition initializeChain (self : State) (now : Z) : State :=
  if height self =? -1 then
    let '(self1, block) :=
      new_Block self (JSON.JObj [("data", JSON.JStr "Genesis Block")]) in
    fst (_addBlock self1 block now)
  else self.

(** [constructor()].  No block exists yet; every reference denotes the
    same unused object.  The call of [initializeChain()] is not awaited,
    and need not be: the genesis branch of [_addBlock] has no [await], so
    the genesis block is in the chain when the constructor returns. *)
Definition new (now : Z) : State :=
  initializeChain
    {| heap := fun _ => Block.new JSON.JNull; next := O; chain := [];
       height := -1 |} now.

(** [getChainHeight()] *)
Definition getChainHeight (self : State) : Promise Z := Resolved (height self).

(** [submitStar(address, message, signature, star)].  The clock is read
    once for the check of the challenge and once more when the block is
    sealed.  The executor is an [async] function without a handler: when
    the verifier throws or the append is rejected the promise stays
    pending. *)
Definition submitStar (self : State) (address message signature : string)
    (star : JSON.json) (now sealed_at : Z) : Submission :=
  if elapsed_over 300 (currentTime now) (timeInMessage message) then
    {| after := self; promise := Rejected (Text "5 miutes have passed");
       verified := [] |}
  else
    let calls := [(message, address, signature)] in
    match bitcoinMessage_verify message address signature with
    | Throws => {| after := self; promise := Pending; verified := calls |}
    | Invalid =>
        {| after := self;
           promise := Rejected (Text "Error detected with signature");
           verified := calls |}
    | Valid =>
        let '(self1, newBlock) :=
          new_Block self
            (JSON.JObj [("address", JSON.JStr address);
                        ("message", JSON.JStr message);
                        ("signature", JSON.JStr signature);
                        ("star", star)]) in
        match _addBlock self1 newBlock sealed_at with
        | (self2, Resolved _) =>
            {| after := self2; promise := Resolved newBlock; verified := calls |}
        | (self2, _) =>
            {| after := self2; promise := Pending; verified := calls |}
        end
    end.

(** [getBlockByHash(hash)] *)
Definition getBlockByHash (self : State) (hash : string) : Promise (option nat) :=
  Resolved
    (find (fun block => Block.strict_equal (Block.hash (heap self block)) hash)
       (chain self)).

(** [getBlockByHeight(height)] *)
Definition getBlockByHeight (self : State) (height : Z) : Promise (option nat) :=
  Resolved
    (find (fun block => Block.height (heap self block) =? height) (chain self)).

(** The test [data && data.address === address]. *)
Definition owned_by (address : string) (data : JSON.json) : bool :=
  JSON.truthy data &&
  match JSON.get data "address" with
  | Some (JSON.JStr a) => String.eqb a address
  | _ => false
  end.

(** The callback of [forEach] up to its [await]: it calls [getBData],
    whose promise is settled when it returns, and is suspended. *)
Definition spawn (self : State) : list (Promise JSON.json) :=
  map (fun block => Block.getBData (heap self block)) (chain self).

(** The rest of the callback, run when the awaited promise is looked at:
    a rejection is thrown out of the callback, where nothing catches it. *)
Definition resume (address : string) (acc : list JSON.json * list Reason)
    (awaited : Promise JSON.json) : list JSON.json * list Reason :=
  let '(stars, lost) := acc in
  match awaited with
  | Resolved data =>
      if owned_by address data then (stars ++ [data], lost) else (stars, lost)
  | Rejected reason => (stars, lost ++ [reason])
  | Pending => (stars, lost)
  end.

(** [getStarsByWalletAddress(address)] *)
Definition getStarsByWalletAddress (self : State) (address : string) : Stars :=
  let stars := [] in
  let queue := spawn self in
  (* resolve(stars) is reached as soon as forEach returns *)
  let resolved := stars in
  let '(stars, lost) := fold_left (resume address) queue (stars, []) in
  {| at_resolve := resolved; suspended := queue; at_rest := stars;
     unhandled := lost |}.

(** *** Notions used to state the properties *)

(** The block at an index of the chain. *)
Definition block_at (self : State) (i : nat) : option Block.t :=
  option_map (heap self) (nth_error (chain self) i).

(** The states of a chain that its constructor has built and that the
    program has then used: it creates blocks with [new Block(...)] and
    appends blocks that are not yet in the chain, as [initializeChain]
    and [submitStar] do.  (An object appended a second time would be
    assigned in place, at both of its positions.) *)
Inductive reachable : State -> Prop :=
  | reach_new now : reachable (new now)
  | reach_new_Block self data :
      reachable self -> reachable (fst (new_Block self data))
  | reach_addBlock self block now :
      reachable self ->
      (block < next self)%nat -> ~ In block (chain self) ->
      reachable (fst (_addBlock self block now)).

(** What holds of every reachable state. *)
Record linked (self : State) : Prop := {
  linked_allocated : forall r, In r (chain self) -> (r < next self)%nat;
  linked_nonempty : chain self <> [];
  linked_heights : forall i r,
    nth_error (chain self) i = Some r ->
    Block.height (heap self r) = Z.of_nat i;
  linked_genesis : forall r,
    nth_error (chain self) 0 = Some r ->
    Block.previousBlockHash (heap self r) = None;
  linked_links : forall i p r,
    nth_error (chain self) i = Some p ->
    nth_error (chain self) (S i) = Some r ->
    Block.previousBlockHash (heap self r) = Block.hash (heap self p);
  linked_hashed : forall r,
    In r (chain self) -> Block.hash (heap self r) <> None
}.

(** A block passes its own check. *)
Definition sealed (b : Block.t) : Prop := Block.validate b = Resolved true.

(** Nothing has been assigned since the chain sealed its blocks: every
    block of the chain passes its check, and a block that exists outside
    the chain has no hash yet. *)
Record intact (self : State) : Prop := {
  intact_chain : forall r, In r (chain self) -> sealed (heap self r);
  intact_fresh : forall r,
    (r < next self)%nat -> ~ In r (chain self) ->
    Block.hash (heap self r) = None
}.

(** The list of errors as the specification words it: one line for every
    block that fails its check, in the order of the chain. *)
Definition failing (b : Block.t) : bool :=
  match Block.validate b with
  | Resolved false => true
  | _ => false
  end.

Definition expected_errors (self : State) : list string :=
  map (fun b => "Block " +++ Num.toString (Block.height b) +++ " is not valid.")
    (filter failing (map (heap self) (chain self))).

(** The lines of a list of blocks. *)
Definition error_lines (blocks : list Block.t) : list string :=
  map (fun b => "Block " +++ Num.toString (Block.height b) +++ " is not valid.")
    (filter failing blocks).

(** An assignment, to one of the four properties of a block that the
    chain has filled in or that the constructor has encoded, of a value of
    the kind the program puts there: a string for the body, an integer for
    the height, an integer or a string for the time, a string or [null]
    for the previous hash. *)
Inductive Mutation : Type :=
  | NewBody (v : string)
  | NewHeight (v : Z)
  | NewTime (v : Block.Time)
  | NewPrevious (v : option string).

Definition mutate (m : Mutation) (b : Block.t) : Block.t :=
  match m with
  | NewBody v => Block.set_body v b
  | NewHeight v => Block.set_height v b
  | NewTime v => Block.set_time v b
  | NewPrevious v => Block.set_previousBlockHash v b
  end.

(** The assigned value is not the value the property has. *)
Definition changes (m : Mutation) (b : Block.t) : Prop :=
  match m with
  | NewBody v => v <> Block.body b
  | NewHeight v => v <> Block.height b
  | NewTime v => v <> Block.time b
  | NewPrevious v => v <> Block.previousBlockHash b
  end.

(** The state after an assignment to the object behind a reference. *)
Definition assign (self : State) (r : nat) (m : Mutation) : State :=
  {| heap := update r (mutate m) (heap self); next := next self;
     chain := chain self; height := height self |}.

(** The numbers of the block are printed with all their digits. *)
Definition safe_block (b : Block.t) : Prop :=
  Num.isSafeInteger (Block.height b) /\
  match Block.time b with
  | Block.TNum z => Num.isSafeInteger z
  | Block.TStr _ => True
  end.

(** The text whose digest is the hash of a block: the block with its
    hash as [null]. *)
Definition digest_text (b : Block.t) : string :=
  JSON.stringify (Block.own_properties (Block.set_hash None b)).

(** The digest tells two texts apart: it gives them one value only if
    they are one text. *)
Definition distinguishes (a b : string) : Prop :=
  SHA256 a = SHA256 b -> a = b.

(** The payloads of a list of settled decodings that [address] owns. *)
Definition owned_payloads (address : string) (l : list (Promise JSON.json))
  : list JSON.json :=
  flat_map (fun p => match p with
                     | Resolved data => if owned_by address data then [data] else []
                     | _ => []
                     end) l.

(** The reasons of a list of settled decodings that were rejected. *)
Definition rejections (l : list (Promise JSON.json)) : list Reason :=
  flat_map (fun p => match p with
                     | Rejected reason => [reason]
                     | _ => []
                     end) l.

(** The payload of the block that [submitStar] constructs. *)
Definition star_data (address message signature : string) (star : JSON.json)
  : JSON.json :=
  JSON.JObj [("address", JSON.JStr address);
             ("message", JSON.JStr message);
             ("signature", JSON.JStr signature);
             ("star", star)].

End Methods.

End Blockchain.

(** ** Libraries to run the program with

    An instance of [Libs] to evaluate the program on concrete inputs: a
    digest without collisions (the text itself), a decoder of pairs of
    hexadecimal digits, a parser of the texts that [JSON.stringify] of
    this development writes, and a verifier that accepts one signature
    for a message and an address. *)

Module Ref.

Definition SHA256 (text : string) : string := text.

(** Two hexadecimal digits make one code unit; a pair that is no number,
    or the number zero, is left out. *)
Fixpoint hex2ascii (hex : string) : string :=
  match hex with
  | String a (String b rest) =>
      match Num.parse_digits 16 (String a (String b "")) None with
      | Some 0 | None => hex2ascii rest
      | Some code => String (ascii_of_nat (Z.to_nat code)) (hex2ascii rest)
      end
  | String a "" =>
      match Num.parse_digits 16 (String a "") None with
      | Some 0 | None => ""
      | Some code => String (ascii_of_nat (Z.to_nat code)) ""
      end
  | "" => ""
  end.

(** The code units of a string up to its closing quote. *)
Fixpoint parse_chars (fuel : nat) (s : string) : option (string * string) :=
  match fuel with
  | O => None
  | S f =>
      match s with
      | String "034" r => Some (EmptyString, r)
      | _ =>
          match JSON.unescape_char s with
          | Some (c, r) =>
              match parse_chars f r with
              | Some (t, r') => Some (String c t, r')
              | None => None
              end
          | None => None
          end
      end
  end%char.

Definition parse_number (s : string) : option (JSON.json * string) :=
  let '(sign, digits) :=
    match s with
    | String "-" r => (-1, r)
    | _ => (1, s)
    end in
  match digits with
  | String c _ =>
      if Num.is_digit c
      then let '(n, r) := Num.read_nat digits 0 in Some (JSON.JNum (sign * n), r)
      else None
  | "" => None
  end.

Fixpoint parse_value (fuel : nat) (s : string) : option (JSON.json * string) :=
  match fuel with
  | O => None
  | S f =>
      match s with
      | String "n" (String "u" (String "l" (String "l" r))) => Some (JSON.JNull, r)
      | String "t" (String "r" (String "u" (String "e" r))) =>
          Some (JSON.JBool true, r)
      | String "f" (String "a" (String "l" (String "s" (String "e" r)))) =>
          Some (JSON.JBool false, r)
      | String "034" r =>
          match parse_chars fuel r with
          | Some (t, r') => Some (JSON.JStr t, r')
          | None => None
          end
      | String "[" (String "]" r) => Some (JSON.JArr [], r)
      | String "[" r =>
          match parse_elements f r with
          | Some (l, r') => Some (JSON.JArr l, r')
          | None => None
          end
      | String "{" (String "}" r) => Some (JSON.JObj [], r)
      | String "{" r =>
          match parse_members f r with
          | Some (l, r') => Some (JSON.JObj l, r')
          | None => None
          end
      | _ => parse_number s
      end
  end%char
with parse_elements (fuel : nat) (s : string)
  : option (list JSON.json * string) :=
  match fuel with
  | O => None
  | S f =>
      match parse_value f s with
      | Some (v, String "," r) =>
          match parse_elements f r with
          | Some (l, r') => Some (v :: l, r')
          | None => None
          end
      | Some (v, String "]" r) => Some ([v], r)
      | _ => None
      end
  end%char
with parse_members (fuel : nat) (s : string)
  : option (list (string * JSON.json) * string) :=
  match fuel with
  | O => None
  | S f =>
      match s with
      | String "034" r =>
          match parse_chars fuel r with
          | Some (k, String ":" r1) =>
              match parse_value f r1 with
              | Some (v, String "," r2) =>
                  match parse_members f r2 with
                  | Some (l, r') => Some ((k, v) :: l, r')
                  | None => None
                  end
              | Some (v, String "}" r2) => Some ([(k, v)], r2)
              | _ => None
              end
          | _ => None
          end
      | _ => None
      end
  end%char.

Definition JSON_parse (text : string) : option JSON.json :=
  match parse_value (S (String.length text)) text with
  | Some (v, "") => Some v
  | _ => None
  end.

(** The one signature the verifier accepts for a message and an address;
    the signature [!] is one it cannot decode. *)
Definition sign (message address : string) : string :=
  "signed:" +++ address +++ "/" +++ message.

Definition bitcoinMessage_verify (message address signature : string) : Verdict :=
  if String.eqb signature "!" then Throws
  else if String.eqb signature (sign message address) then Valid
  else Invalid.

Definition libs : Libs :=
  Build_Libs SHA256 hex2ascii JSON_parse bitcoinMessage_verify.

(** A digest of bounded size, which therefore has collisions: the code
    units as the digits of a number in base 31, modulo 2^32. *)
Fixpoint checksum_from (acc : Z) (text : string) : Z :=
  match text with
  | EmptyString => acc
  | String c rest =>
      checksum_from ((acc * 31 + Z.of_nat (nat_of_ascii c)) mod 2 ^ 32) rest
  end.

Definition checksum (text : string) : string :=
  Num.toString (checksum_from 0 text).

Definition short : Libs :=
  Build_Libs checksum hex2ascii JSON_parse bitcoinMessage_verify.

End Ref.

(** ** A run of the program

    The inputs at which the properties are evaluated: a chain created at
    a given time, two owners, their challenges and three submissions. *)

Module Scenario.
Import Blockchain.

Definition created : Z := 1700000000123.

Definition genesis : State := new (H := Ref.libs) created.

Definition alice : string := "1FzWLkAahHooV3kzTgyx6qsswXJ6sCXkSR".
Definition bob : string := "1BvBMSEYstWetqTFn5Au4m4GFg7xJaNVN2".

(** The message of [requestMessageOwnershipVerification(owner)] at the
    creation time. *)
Definition challenge (owner : string) : string :=
  owner +++ ":1700000000:starRegistry".

Definition star (name : string) : JSON.json :=
  JSON.JObj [("name", JSON.JStr name)].

(** A submission with the signature the verifier accepts. *)
Definition submit (self : State) (owner name : string) (now : Z) : Submission :=
  submitStar (H := Ref.libs) self owner (challenge owner)
    (Ref.sign (challenge owner) owner) (star name) now (now + 40).

Definition first : State := after (submit genesis alice "Polaris" 1700000100000).
Definition second : State := after (submit first alice "Vega" 1700000200000).
Definition third : State := after (submit second bob "Sirius" 1700000299000).

(** The payload of a submission, as the block holds it. *)
Definition payload (owner name : string) : JSON.json :=
  JSON.JObj [("address", JSON.JStr owner);
             ("message", JSON.JStr (challenge owner));
             ("signature", JSON.JStr (Ref.sign (challenge owner) owner));
             ("star", star name)].

(** The body of the genesis block without its last byte, the closing
    brace. *)
Definition cut_body : string :=
  "7b2264617461223a2247656e6573697320426c6f636b22".

Definition damaged : State := assign genesis 0%nat (NewBody cut_body).

(** The first submission with its link taken away and its hash computed
    again: each block passes its own check, the second does not point to
    the first. *)
Definition unlinked : State :=
  {| heap := update 1%nat
               (fun b => seal (H := Ref.libs)
                           (Block.set_hash None
                              (Block.set_previousBlockHash None b)))
               (heap first);
     next := next first; chain := chain first; height := height first |}.

(** The first submission with another height. *)
Definition renumbered : State := assign first 1%nat (NewHeight 12).

(** The genesis block of the run with any value in its properties, and
    the same block after the assignment of [NaN] to its link. *)
Definition genesis_block : Raw.block := Raw.of_block (heap genesis 0%nat).

Definition genesis_block_NaN : Raw.block :=
  Raw.with_previousBlockHash Raw.NaN genesis_block.

(** The same block after the assignment of [new String("1700000000")] to
    its time. *)
Definition genesis_block_boxed : Raw.block :=
  Raw.with_time (Raw.StringObject "1700000000") genesis_block.

(** The chain and its first submission under the digest of bounded
    size. *)
Definition short_genesis : State := new (H := Ref.short) created.

Definition short_first : State :=
  after (submitStar (H := Ref.short) short_genesis alice (challenge alice)
           (Ref.sign (challenge alice) alice) (star "Polaris")
           1700000100000 1700000100040).

End Scenario.

(** * Facts about the text functions *)

Module StrFacts.
Import Str.

Lemma append_assoc (a b c : string) : (a +++ b) +++ c = a +++ (b +++ c).
Proof. induction a as [|x a IH]; simpl; [reflexivity | now rewrite IH]. Qed.

Lemma append_nil_r (a : string) : a +++ "" = a.
Proof. induction a as [|x a IH]; simpl; [reflexivity | now rewrite IH]. Qed.

Lemma append_length (a b : string) :
  String.length (a +++ b) = (String.length a + String.length b)%nat.
Proof. induction a as [|x a IH]; simpl; [reflexivity | now rewrite IH]. Qed.

Lemma cons_inj (c : ascii) (a b : string) : String c a = String c b -> a = b.
Proof. now intros E; injection E. Qed.

Lemma append_cancel_l (a b c : string) : a +++ b = a +++ c -> b = c.
Proof.
  induction a as [|x a IH]; simpl; intros H; [exact H|].
  injection H as H. now apply IH.
Qed.

Lemma substring_prefix (a b : string) :
  substring 0 (String.length a) (a +++ b) = a.
Proof.
  induction a as [|x a IH]; simpl.
  - now destruct b.
  - now rewrite IH.
Qed.

Lemma slice_0_neg_app (a b : string) :
  slice_0_neg (String.length b) (a +++ b) = a.
Proof.
  unfold slice_0_neg. rewrite append_length.
  replace (String.length a + String.length b - String.length b)%nat
    with (String.length a) by lia.
  apply substring_prefix.
Qed.

End StrFacts.

Module NumFacts.
Import Num.

Lemma digits_from_acc (f : nat) : forall n acc,
  digits_from f n acc = digits_from f n "" +++ acc.
Proof.
  induction f as [|f IH]; intros n acc; simpl; [reflexivity|].
  destruct (n <? 10); [reflexivity|].
  rewrite (IH _ (String _ acc)), (IH _ (String _ "")).
  now rewrite StrFacts.append_assoc.
Qed.

Lemma digits_from_fuel (f1 : nat) : forall f2 n acc,
  0 <= n -> n < 10 ^ Z.of_nat (S f1) -> n < 10 ^ Z.of_nat (S f2) ->
  digits_from f1 n acc = digits_from f2 n acc.
Proof.
  induction f1 as [|f1 IH]; intros f2 n acc Hn H1 H2.
  - change (10 ^ Z.of_nat 1) with 10 in H1.
    destruct f2; simpl; [reflexivity|].
    destruct (Z.ltb_spec n 10); [reflexivity | lia].
  - destruct f2 as [|f2]; simpl.
    + change (10 ^ Z.of_nat 1) with 10 in H2.
      destruct (Z.ltb_spec n 10); [reflexivity | lia].
    + destruct (Z.ltb_spec n 10); [reflexivity|].
      apply IH.
      * apply Z.div_pos; lia.
      * apply Z.div_lt_upper_bound; [lia|].
        rewrite Nat2Z.inj_succ, Z.pow_succ_r in H1 by lia. exact H1.
      * apply Z.div_lt_upper_bound; [lia|].
        rewrite Nat2Z.inj_succ, Z.pow_succ_r in H2 by lia. exact H2.
Qed.

Lemma log2_fuel (n : Z) : 0 <= n -> n < 10 ^ Z.of_nat (S (Z.to_nat (Z.log2 n))).
Proof.
  intros Hn.
  destruct (Z.eq_dec n 0) as [->|Hne]; [reflexivity|].
  pose proof (Z.log2_nonneg n) as Hl.
  rewrite Nat2Z.inj_succ, Z2Nat.id by exact Hl.
  destruct (Z.log2_spec n) as [_ Hlt]; [lia|].
  eapply Z.lt_le_trans; [exact Hlt|].
  apply Z.pow_le_mono_l. lia.
Qed.

(** The defining equation of the digits: the last digit is the remainder,
    the digits before it are the digits of the quotient. *)
Lemma nat_digits_step (n : Z) :
  10 <= n ->
  nat_digits n = nat_digits (n / 10) +++ String (digit_char (n mod 10)) "".
Proof.
  intros Hn. unfold nat_digits.
  assert (Hq : 0 <= n / 10) by (apply Z.div_pos; lia).
  assert (Hf : n < 10 ^ Z.of_nat (S (S (Z.to_nat (Z.log2 (n / 10)))))).
  { rewrite Nat2Z.inj_succ, Z.pow_succ_r by lia.
    pose proof (log2_fuel (n / 10) Hq) as H.
    pose proof (Z.mul_div_le n 10 ltac:(lia)).
    pose proof (Z.mod_pos_bound n 10 ltac:(lia)).
    pose proof (Z.div_mod n 10 ltac:(lia)). lia. }
  rewrite (digits_from_fuel _ (S (Z.to_nat (Z.log2 (n / 10)))) n "");
    [| lia | apply log2_fuel; lia | exact Hf].
  simpl. destruct (Z.ltb_spec n 10); [lia|].
  apply digits_from_acc.
Qed.

Lemma nat_digits_small (n : Z) :
  0 <= n < 10 -> nat_digits n = String (digit_char n) "".
Proof.
  intros Hn. unfold nat_digits.
  rewrite (digits_from_fuel _ 0%nat n ""); [| lia | apply log2_fuel; lia | simpl; lia].
  simpl. now rewrite Z.mod_small.
Qed.

(** Dropping the last three digits of a number of at least four digits
    divides it by a thousand. *)
Lemma nat_digits_slice3 (n : Z) :
  1000 <= n -> Str.slice_0_neg 3 (nat_digits n) = nat_digits (n / 1000).
Proof.
  intros Hn.
  assert (H1 : 100 <= n / 10) by (apply Z.div_le_lower_bound; lia).
  assert (H2 : 10 <= n / 10 / 10) by (apply Z.div_le_lower_bound; lia).
  rewrite (nat_digits_step n) by lia.
  rewrite (nat_digits_step (n / 10)) by lia.
  rewrite (nat_digits_step (n / 10 / 10)) by lia.
  rewrite !StrFacts.append_assoc. simpl.
  replace (n / 1000) with (n / 10 / 10 / 10)
    by (rewrite !Z.div_div by lia; reflexivity).
  apply (StrFacts.slice_0_neg_app _ (String _ (String _ (String _ "")))).
Qed.

Lemma read_nat_stops (r : string) (acc : Z) : stops r -> read_nat r acc = (acc, r).
Proof. destruct r as [|c r]; simpl; [reflexivity | now intros ->]. Qed.

Lemma digit_char_spec (d : Z) :
  0 <= d < 10 -> is_digit (digit_char d) = true /\ digit_of (digit_char d) = d.
Proof.
  intros Hd.
  assert (Hc : d = 0 \/ d = 1 \/ d = 2 \/ d = 3 \/ d = 4 \/ d = 5 \/ d = 6
               \/ d = 7 \/ d = 8 \/ d = 9) by lia.
  repeat (destruct Hc as [->|Hc]; [split; reflexivity|]).
  subst d; split; reflexivity.
Qed.

(** Reading the digits of [n] in front of any text goes on reading that
    text, with [n] pushed into the accumulator. *)
Lemma read_nat_digits (n : Z) :
  0 <= n ->
  exists k, forall r acc,
    read_nat (nat_digits n +++ r) acc = read_nat r (acc * k + n).
Proof.
  intros Hn. pattern n. apply Zlt_0_ind; [|exact Hn].
  clear n Hn. intros n IH Hn.
  destruct (Z_lt_le_dec n 10) as [Hs|Hb].
  - exists 10. intros r acc. rewrite nat_digits_small by lia.
    cbn [String.append read_nat].
    destruct (digit_char_spec n ltac:(lia)) as [-> ->]. reflexivity.
  - assert (Hq : 0 <= n / 10 < n).
    { split; [apply Z.div_pos; lia | apply Z.div_lt; lia]. }
    destruct (IH (n / 10) Hq) as [k Hk].
    exists (k * 10). intros r acc.
    rewrite nat_digits_step, StrFacts.append_assoc, Hk by lia.
    cbn [String.append read_nat].
    destruct (digit_char_spec (n mod 10)) as [-> ->];
      [apply Z.mod_pos_bound; lia|].
    f_equal. pose proof (Z.div_mod n 10 ltac:(lia)). lia.
Qed.

Lemma nat_digits_head (n : Z) :
  0 <= n -> exists c s, nat_digits n = String c s /\ is_digit c = true.
Proof.
  intros Hn. pattern n. apply Zlt_0_ind; [|exact Hn].
  clear n Hn. intros n IH Hn.
  destruct (Z_lt_le_dec n 10) as [Hs|Hb].
  - rewrite nat_digits_small by lia.
    exists (digit_char n), "". split; [reflexivity|].
    now destruct (digit_char_spec n ltac:(lia)).
  - assert (Hq : 0 <= n / 10 < n).
    { split; [apply Z.div_pos; lia | apply Z.div_lt; lia]. }
    destruct (IH (n / 10) Hq) as (c & s & E & Hc).
    rewrite nat_digits_step, E by lia. cbn [String.append].
    eexists _, _. split; [reflexivity | exact Hc].
Qed.

Lemma nat_digits_inj (a b : Z) (r1 r2 : string) :
  0 <= a -> 0 <= b -> stops r1 -> stops r2 ->
  nat_digits a +++ r1 = nat_digits b +++ r2 -> a = b /\ r1 = r2.
Proof.
  intros Ha Hb S1 S2 E.
  destruct (read_nat_digits a Ha) as [ka Ka].
  destruct (read_nat_digits b Hb) as [kb Kb].
  apply (f_equal (fun s => read_nat s 0)) in E.
  rewrite Ka, Kb, !read_nat_stops in E by assumption.
  injection E as E1 E2. split; [lia | exact E2].
Qed.

(** The printed form of an integer is a prefix code once the text that
    follows cannot continue a number. *)
Lemma toString_inj (a b : Z) (r1 r2 : string) :
  stops r1 -> stops r2 ->
  toString a +++ r1 = toString b +++ r2 -> a = b /\ r1 = r2.
Proof.
  intros S1 S2. unfold toString.
  destruct (Z.ltb_spec a 0) as [Ha|Ha], (Z.ltb_spec b 0) as [Hb|Hb];
    cbn [String.append]; intros E.
  - injection E as E.
    apply nat_digits_inj in E; [|lia|lia|assumption|assumption].
    split; [lia | tauto].
  - destruct (nat_digits_head b Hb) as (c & s & Eb & Hc).
    rewrite Eb in E. cbn [String.append] in E. injection E as E _.
    subst c. discriminate Hc.
  - destruct (nat_digits_head a Ha) as (c & s & Ea & Hc).
    rewrite Ea in E. cbn [String.append] in E. injection E as E _.
    subst c. discriminate Hc.
  - now apply nat_digits_inj.
Qed.

(** The first code unit of a printed integer is a digit or the sign. *)
Lemma toString_head (z : Z) :
  exists c s, toString z = String c s /\ (is_digit c = true \/ c = "-"%char).
Proof.
  unfold toString. destruct (Z.ltb_spec z 0) as [Hz|Hz].
  - eexists _, _. split; [reflexivity | now right].
  - destruct (nat_digits_head z Hz) as (c & s & E & Hc).
    exists c, s. split; [exact E | now left].
Qed.

(** *** [parseInt] reads a printed number back *)

Lemma digit_facts (c : ascii) :
  is_digit c = true ->
  is_white c = false /\ (c =? "-")%char = false /\ (c =? "+")%char = false /\
  (c =? "x")%char = false /\ (c =? "X")%char = false /\
  radix_digit 10 c = Some (digit_of c).
Proof.
  destruct c as [[] [] [] [] [] [] [] []]; intros E;
    try discriminate E; repeat split; reflexivity.
Qed.

Lemma all_digits_app (a b : string) :
  all_digits (a +++ b) = all_digits a && all_digits b.
Proof.
  induction a as [|c a IH]; cbn [String.append all_digits]; [reflexivity|].
  now rewrite IH, andb_assoc.
Qed.

Lemma nat_digits_all_digits (n : Z) : 0 <= n -> all_digits (nat_digits n) = true.
Proof.
  intros Hn. pattern n. apply Zlt_0_ind; [|exact Hn].
  clear n Hn. intros n IH Hn.
  destruct (Z_lt_le_dec n 10) as [Hs|Hb].
  - rewrite nat_digits_small by lia. cbn [all_digits].
    destruct (digit_char_spec n ltac:(lia)) as [-> _]. reflexivity.
  - assert (Hq : 0 <= n / 10 < n).
    { split; [apply Z.div_pos; lia | apply Z.div_lt; lia]. }
    rewrite nat_digits_step, all_digits_app, (IH _ Hq) by lia.
    cbn [all_digits].
    destruct (digit_char_spec (n mod 10)) as [-> _];
      [apply Z.mod_pos_bound; lia | reflexivity].
Qed.

Lemma parse_digits_nat_digits (n : Z) :
  0 <= n ->
  exists k, forall r acc,
    parse_digits 10 (nat_digits n +++ r) acc
    = parse_digits 10 r
        (Some (match acc with Some a => a * k + n | None => n end)).
Proof.
  intros Hn. pattern n. apply Zlt_0_ind; [|exact Hn].
  clear n Hn. intros n IH Hn.
  destruct (Z_lt_le_dec n 10) as [Hs|Hb].
  - exists 10. intros r acc. rewrite nat_digits_small by lia.
    cbn [String.append parse_digits].
    destruct (digit_char_spec n ltac:(lia)) as [Hd Hv].
    destruct (digit_facts _ Hd) as (_ & _ & _ & _ & _ & ->).
    now rewrite Hv.
  - assert (Hq : 0 <= n / 10 < n).
    { split; [apply Z.div_pos; lia | apply Z.div_lt; lia]. }
    destruct (IH (n / 10) Hq) as [k Hk].
    exists (k * 10). intros r acc.
    rewrite nat_digits_step, StrFacts.append_assoc, Hk by lia.
    cbn [String.append parse_digits].
    destruct (digit_char_spec (n mod 10)) as [Hd Hv];
      [apply Z.mod_pos_bound; lia|].
    destruct (digit_facts _ Hd) as (_ & _ & _ & _ & _ & ->).
    rewrite Hv. do 2 f_equal.
    pose proof (Z.div_mod n 10 ltac:(lia)). destruct acc; lia.
Qed.

Lemma parseInt_toString (n : Z) : 0 <= n -> parseInt (toString n) = Some n.
Proof.
  intros Hn. unfold toString. destruct (Z.ltb_spec n 0) as [|_]; [lia|].
  pose proof (nat_digits_all_digits n Hn) as Hall.
  destruct (parse_digits_nat_digits n Hn) as [k Hk].
  specialize (Hk "" None). rewrite StrFacts.append_nil_r in Hk.
  destruct (nat_digits n) as [|c s] eqn:E.
  - destruct (nat_digits_head n Hn) as (c & s & E' & _). congruence.
  - cbn [all_digits] in Hall. apply andb_prop in Hall. destruct Hall as [Hc Hs].
    destruct (digit_facts c Hc) as (Hw & Hm & Hp & _).
    unfold parseInt. cbn [trim_start]. rewrite Hw, Hm, Hp.
    assert (Hradix :
              match String c s with
              | String c0 (String x r) =>
                  if (c0 =? "0")%char && ((x =? "x")%char || (x =? "X")%char)
                  then (16, r)
                  else (10, String c s)
              | _ => (10, String c s)
              end = (10, String c s)).
    { destruct s as [|x r]; [reflexivity|].
      cbn [all_digits] in Hs. apply andb_prop in Hs. destruct Hs as [Hx _].
      destruct (digit_facts x Hx) as (_ & _ & _ & -> & -> & _).
      now rewrite andb_false_r. }
    rewrite Hradix, Hk. cbn [parse_digits option_map]. f_equal. lia.
Qed.

End NumFacts.

Lemma seconds_text_spec (now : Z) :
  1000 <= now -> seconds_text now = Num.toString (now / 1000).
Proof.
  intros Hn. unfold seconds_text, Num.toString.
  assert (0 <= now / 1000) by (apply Z.div_pos; lia).
  destruct (Z.ltb_spec now 0); [lia|].
  destruct (Z.ltb_spec (now / 1000) 0); [lia|].
  now apply NumFacts.nat_digits_slice3.
Qed.

Lemma parseInt_seconds_text (now : Z) :
  1000 <= now -> Num.parseInt (seconds_text now) = Some (now / 1000).
Proof.
  intros Hn. rewrite seconds_text_spec by exact Hn.
  apply NumFacts.parseInt_toString. apply Z.div_pos; lia.
Qed.

Module JSONFacts.
Import JSON.

Lemma unescape_escape_char (c : ascii) (r : string) :
  unescape_char (escape_char c +++ r) = Some (c, r).
Proof.
  destruct c as [[] [] [] [] [] [] [] []]; reflexivity.
Qed.

Lemma escape_inj (s : string) : forall s' r r',
  escape s +++ String dq r = escape s' +++ String dq r' -> s = s' /\ r = r'.
Proof.
  induction s as [|c s IH]; intros [|c' s'] r r' E; cbn [escape] in E.
  - cbn [String.append] in E. injection E as E. now split.
  - apply (f_equal unescape_char) in E.
    rewrite StrFacts.append_assoc, unescape_escape_char in E. discriminate E.
  - apply (f_equal unescape_char) in E.
    rewrite StrFacts.append_assoc, unescape_escape_char in E. discriminate E.
  - apply (f_equal unescape_char) in E.
    rewrite !StrFacts.append_assoc, !unescape_escape_char in E.
    injection E as -> E. apply IH in E. destruct E as [-> ->]. now split.
Qed.

Lemma quote_inj (s s' r r' : string) :
  quote s +++ r = quote s' +++ r' -> s = s' /\ r = r'.
Proof.
  unfold quote. cbn [String.append]. intros E. injection E as E.
  rewrite !StrFacts.append_assoc in E. cbn [String.append] in E.
  now apply escape_inj in E.
Qed.

End JSONFacts.

(** * The text of a block determines the block *)

Module BlockFacts.
Import Block.

Lemma string_or_null_inj (x y : option string) (r r' : string) :
  JSON.stringify (string_or_null x) +++ r
  = JSON.stringify (string_or_null y) +++ r' -> x = y /\ r = r'.
Proof.
  destruct x as [x|], y as [y|]; cbn [string_or_null JSON.stringify]; intros E.
  - apply JSONFacts.quote_inj in E. destruct E as [-> ->]. now split.
  - discriminate E.
  - discriminate E.
  - apply StrFacts.append_cancel_l in E. now split.
Qed.

Lemma time_value_inj (x y : Time) (r r' : string) :
  Num.stops r -> Num.stops r' ->
  JSON.stringify (time_value x) +++ r
  = JSON.stringify (time_value y) +++ r' -> x = y /\ r = r'.
Proof.
  intros S S'.
  destruct x as [x|x], y as [y|y]; cbn [time_value JSON.stringify]; intros E.
  - apply NumFacts.toString_inj in E; [|assumption|assumption].
    destruct E as [-> ->]. now split.
  - destruct (NumFacts.toString_head x) as (c & s & Ex & Hc).
    rewrite Ex in E. unfold JSON.quote in E. cbn [String.append] in E.
    injection E as E _. subst c. now destruct Hc.
  - destruct (NumFacts.toString_head y) as (c & s & Ey & Hc).
    rewrite Ey in E. unfold JSON.quote in E. cbn [String.append] in E.
    injection E as E _. subst c. now destruct Hc.
  - apply JSONFacts.quote_inj in E. destruct E as [-> ->]. now split.
Qed.

(** The text that [JSON.stringify] writes for a block, key by key. *)
Lemma stringify_block (b : t) :
  JSON.stringify (own_properties b)
  = String "{"
      (JSON.quote "hash" +++ String ":"
      (JSON.stringify (string_or_null (hash b)) +++ String ","
      (JSON.quote "height" +++ String ":"
      (Num.toString (height b) +++ String ","
      (JSON.quote "body" +++ String ":"
      (JSON.quote (body b) +++ String ","
      (JSON.quote "time" +++ String ":"
      (JSON.stringify (time_value (time b)) +++ String ","
      (JSON.quote "previousBlockHash" +++ String ":"
      (JSON.stringify (string_or_null (previousBlockHash b)) +++ "}")))))))))).
Proof.
  unfold own_properties. cbn [JSON.stringify String.append].
  repeat (rewrite StrFacts.append_assoc; cbn [String.append]).
  reflexivity.
Qed.

Ltac next_key E :=
  apply JSONFacts.quote_inj in E; destruct E as [_ E];
  apply StrFacts.cons_inj in E.

Lemma stringify_block_inj (a b : t) :
  JSON.stringify (own_properties a) = JSON.stringify (own_properties b) ->
  a = b.
Proof.
  rewrite !stringify_block. intros E. apply StrFacts.cons_inj in E.
  next_key E.
  apply string_or_null_inj in E. destruct E as [E1 E].
  apply StrFacts.cons_inj in E. next_key E.
  apply NumFacts.toString_inj in E; [|reflexivity|reflexivity].
  destruct E as [E2 E]. apply StrFacts.cons_inj in E. next_key E.
  apply JSONFacts.quote_inj in E. destruct E as [E3 E].
  apply StrFacts.cons_inj in E. next_key E.
  apply time_value_inj in E; [|reflexivity|reflexivity].
  destruct E as [E4 E]. apply StrFacts.cons_inj in E. next_key E.
  apply string_or_null_inj in E. destruct E as [E5 _].
  destruct a, b; cbn in *; congruence.
Qed.

End BlockFacts.

(** * Blocks with any value *)

Module RawFacts.
Import Raw.

Lemma own_properties_of_block (x : Block.t) :
  own_properties (of_block x) = Block.own_properties x.
Proof. destruct x as [h n b t p]; destruct h, t, p; reflexivity. Qed.

Lemma of_block_to_block (a : block) : plain a -> of_block (to_block a) = a.
Proof.
  destruct a as [h n b t p]. unfold plain. cbn.
  intros (Hh & Hn & Hb & Ht & Hp).
  destruct h; try contradiction; destruct n; try contradiction;
    destruct b; try contradiction; destruct t; try contradiction;
    destruct p; try contradiction; reflexivity.
Qed.

(** On the blocks of the program the check is the check of the
    program. *)
Lemma validate_of_block `{Libs} (x : Block.t) :
  validate (of_block x) = Block.validate x.
Proof.
  unfold validate, Block.validate.
  destruct x as [h n b t p]; destruct h, t, p; reflexivity.
Qed.

End RawFacts.

(** * The ledger *)

Section Ledger.
Context `{Libs}.
Import Blockchain.

(** ** Objects and references *)

Lemma update_same r f (h : nat -> Block.t) : update r f h r = f (h r).
Proof. unfold update. now rewrite Nat.eqb_refl. Qed.

Lemma update_other r f (h : nat -> Block.t) x : x <> r -> update r f h x = h x.
Proof. unfold update. intros Hx. now apply Nat.eqb_neq in Hx as ->. Qed.

Lemma stamp_same now block h :
  stamp now block h block
  = seal (Block.set_time (Block.TStr (seconds_text now)) (h block)).
Proof. unfold stamp. now rewrite !update_same. Qed.

Lemma stamp_other now block h x : x <> block -> stamp now block h x = h x.
Proof. intros Hx. unfold stamp. now rewrite !update_other. Qed.

Lemma addBlock_chain self block now :
  chain (fst (_addBlock self block now)) = chain self ++ [block].
Proof.
  unfold _addBlock. destruct (chain self) as [|r l]; [reflexivity|].
  cbv zeta. destruct (validateChain _) as [[|e errs]|e|]; reflexivity.
Qed.

Lemma addBlock_next self block now :
  next (fst (_addBlock self block now)) = next self.
Proof.
  unfold _addBlock. destruct (chain self) as [|r l]; [reflexivity|].
  cbv zeta. destruct (validateChain _) as [[|e errs]|e|]; reflexivity.
Qed.

Lemma addBlock_other self block now x :
  x <> block -> heap (fst (_addBlock self block now)) x = heap self x.
Proof.
  intros Hx. unfold _addBlock. destruct (chain self) as [|r l].
  - cbn [fst heap]. now rewrite stamp_other, update_other.
  - cbv zeta. destruct (validateChain _) as [[|e errs]|e|]; cbn [fst heap];
      now rewrite stamp_other, !update_other.
Qed.

Lemma addBlock_block self block now :
  heap (fst (_addBlock self block now)) block = seal (prepared self block now).
Proof.
  unfold _addBlock, prepared. destruct (chain self) as [|r l].
  - cbn [fst heap]. now rewrite stamp_same, update_same.
  - cbv zeta. set (p := last (r :: l) O).
    assert (E : Block.hash
                  (update block
                     (Block.set_height (Block.height (heap self p) + 1))
                     (heap self) p) = Block.hash (heap self p)).
    { unfold update. now destruct (Nat.eqb p block). }
    destruct (validateChain _) as [[|e errs]|e|]; cbn [fst heap];
      now rewrite stamp_same, !update_same, E.
Qed.

Lemma addBlock_height self block now :
  height (fst (_addBlock self block now))
  = Block.height (heap (fst (_addBlock self block now)) block).
Proof.
  rewrite addBlock_block. unfold _addBlock, prepared.
  destruct (chain self) as [|r l]; [reflexivity|].
  cbv zeta. set (p := last (r :: l) O).
  destruct (validateChain _) as [[|e errs]|e|]; cbn [fst height];
    rewrite stamp_same, !update_same; reflexivity.
Qed.

(** ** Sealing *)

Lemma validate_seal (b : Block.t) :
  Block.hash b = None -> Block.validate (seal b) = Resolved true.
Proof.
  intros Hb. unfold Block.validate, seal.
  replace (Block.set_hash None (Block.set_hash _ b)) with b
    by (destruct b; cbn in *; now subst).
  cbn [Block.hash Block.set_hash Block.strict_equal].
  now rewrite String.eqb_refl.
Qed.

Lemma prepared_hash self block now :
  Block.hash (prepared self block now) = Block.hash (heap self block).
Proof. unfold prepared. now destruct (chain self). Qed.

Lemma addBlock_validates self block now :
  Block.hash (heap self block) = None ->
  Block.validate (heap (fst (_addBlock self block now)) block) = Resolved true.
Proof.
  intros Hb. rewrite addBlock_block. apply validate_seal.
  now rewrite prepared_hash.
Qed.

(** C2.  A block whose hash is [null] when it is given to [_addBlock], as
    every block is from its constructor on, passes [validate()] as soon as
    the chain has sealed it: the hash it then has is the digest of the
    text of the block with its hash taken as [null]. *)
Theorem sealed_block_validates self block now :
  Block.hash (heap self block) = None ->
  let b := heap (fst (_addBlock self block now)) block in
  Block.validate b = Resolved true /\
  Block.hash b
  = Some (SHA256 (JSON.stringify
                    (Block.own_properties (Block.set_hash None b)))).
Proof.
  intros Hb b. subst b. split; [now apply addBlock_validates|].
  rewrite addBlock_block.
  assert (Hp : Block.hash (prepared self block now) = None)
    by now rewrite prepared_hash.
  unfold seal. cbn [Block.hash Block.set_hash]. do 4 f_equal.
  destruct (prepared self block now); cbn in *; now subst.
Qed.

(** ** The chain of hashes *)

Lemma nth_error_last (l : list nat) (d : nat) :
  l <> [] -> nth_error l (List.length l - 1) = Some (last l d).
Proof.
  induction l as [|x l IH]; [easy|]. intros _.
  destruct l as [|y l]; [reflexivity|].
  cbn [List.length] in *. replace (S (S (List.length l)) - 1)%nat with (S (List.length l)) by lia.
  cbn [nth_error]. replace (List.length l) with (S (List.length l) - 1)%nat by lia.
  rewrite IH by easy. reflexivity.
Qed.

Lemma linked_new now : linked (new now).
Proof.
  split; cbn.
  - intros r [<-|[]]. lia.
  - discriminate.
  - intros [|[|i]] r E; cbn in E; try discriminate E.
    injection E as <-. reflexivity.
  - intros r E. injection E as <-. reflexivity.
  - intros [|i] p r _ E; cbn in E; discriminate E.
  - intros r [<-|[]]. discriminate.
Qed.

Lemma linked_new_Block self data : linked self -> linked (fst (new_Block self data)).
Proof.
  intros [Ha Hn Hh Hg Hl Hs].
  assert (Hkeep : forall r, In r (chain self) ->
            heap (fst (new_Block self data)) r = heap self r).
  { intros r Hr. cbn. apply Ha in Hr.
    destruct (Nat.eqb_spec r (next self)); [lia | reflexivity]. }
  split; cbn [new_Block fst chain next].
  - intros r Hr. apply Ha in Hr. lia.
  - exact Hn.
  - intros i r E. rewrite Hkeep by (eapply nth_error_In; eassumption). eauto.
  - intros r E. rewrite Hkeep by (eapply nth_error_In; eassumption). eauto.
  - intros i p r Ep Er.
    rewrite !Hkeep by (eapply nth_error_In; eassumption). eauto.
  - intros r Hr. rewrite Hkeep by assumption. eauto.
Qed.

Lemma linked_addBlock self block now :
  linked self -> (block < next self)%nat -> ~ In block (chain self) ->
  linked (fst (_addBlock self block now)).
Proof.
  intros [Ha Hn Hh Hg Hl Hs] Hb Hfresh.
  set (self' := fst (_addBlock self block now)).
  assert (Hkeep : forall r, In r (chain self) -> heap self' r = heap self r).
  { intros r Hr. apply addBlock_other. intros ->. contradiction. }
  assert (Hlast : nth_error (chain self) (List.length (chain self) - 1)
                  = Some (last (chain self) O))
    by now apply nth_error_last.
  assert (Hlen : (0 < List.length (chain self))%nat)
    by (destruct (chain self); [easy | cbn; lia]).
  assert (Hnew : heap self' block = seal (prepared self block now))
    by apply addBlock_block.
  assert (Hprep : prepared self block now
                  = Block.set_time (Block.TStr (seconds_text now))
                      (Block.set_previousBlockHash
                         (Block.hash (heap self (last (chain self) O)))
                         (Block.set_height
                            (Block.height (heap self (last (chain self) O)) + 1)
                            (heap self block)))).
  { unfold prepared. destruct (chain self); [easy | reflexivity]. }
  assert (Hat : forall i r, nth_error (chain self ++ [block]) i = Some r ->
            (i < List.length (chain self))%nat /\ nth_error (chain self) i = Some r
            \/ i = List.length (chain self) /\ r = block).
  { intros i r E. destruct (Nat.lt_ge_cases i (List.length (chain self))) as [Hi|Hi].
    - left. rewrite nth_error_app1 in E by assumption. now split.
    - right. rewrite nth_error_app2 in E by assumption.
      destruct (i - List.length (chain self))%nat as [|k] eqn:Ek; cbn in E.
      + injection E as <-. split; [lia | reflexivity].
      + destruct k; discriminate E. }
  split; unfold self'; rewrite ?addBlock_chain, ?addBlock_next;
    fold self'.
  - intros r Hr. apply in_app_or in Hr. destruct Hr as [Hr|[<-|[]]]; auto.
  - now destruct (chain self).
  - intros i r E. apply Hat in E. destruct E as [[Hi E]|[-> ->]].
    + rewrite Hkeep by (eapply nth_error_In; eassumption). eauto.
    + rewrite Hnew, Hprep. cbn. rewrite (Hh _ _ Hlast). lia.
  - intros r E. apply Hat in E. destruct E as [[Hi E]|[E _]]; [|lia].
    rewrite Hkeep by (eapply nth_error_In; eassumption). eauto.
  - intros i p r Ep Er. apply Hat in Ep, Er.
    destruct Er as [[Hi Er]|[Ei ->]].
    + destruct Ep as [[_ Ep]|[Ep _]]; [|lia].
      rewrite !Hkeep by (eapply nth_error_In; eassumption). eauto.
    + destruct Ep as [[_ Ep]|[Ep _]]; [|lia].
      assert (p = last (chain self) O) as ->.
      { replace i with (List.length (chain self) - 1)%nat in Ep by lia.
        congruence. }
      rewrite (Hkeep (last (chain self) O))
        by (eapply nth_error_In; exact Hlast).
      rewrite Hnew, Hprep. reflexivity.
  - intros r Hr. apply in_app_or in Hr. destruct Hr as [Hr|[<-|[]]].
    + rewrite Hkeep by assumption. auto.
    + rewrite Hnew. discriminate.
Qed.

Lemma reachable_linked self : reachable self -> linked self.
Proof.
  induction 1 as [now|self data _ IH|self block now _ IH Hb Hfresh].
  - apply linked_new.
  - now apply linked_new_Block.
  - now apply linked_addBlock.
Qed.

Lemma reachable_NoDup self : reachable self -> NoDup (chain self).
Proof.
  intros Hr. apply reachable_linked in Hr. destruct Hr as [_ _ Hh _ _ _].
  apply NoDup_nth_error. intros i j Hi E.
  destruct (nth_error (chain self) i) as [r|] eqn:Ei.
  - symmetry in E. apply Hh in Ei, E. lia.
  - apply nth_error_None in Ei. lia.
Qed.

Lemma reachable_intact self : reachable self -> intact self.
Proof.
  induction 1 as [now|self data Hr IH|self block now Hr IH Hb Hfresh].
  - split.
    + intros r [<-|[]].
      change (new now)
        with (fst (_addBlock
                     (fst (new_Block
                             {| heap := fun _ => Block.new JSON.JNull;
                                next := O; chain := []; height := -1 |}
                             (JSON.JObj [("data", JSON.JStr "Genesis Block")])))
                     O now)).
      now apply addBlock_validates.
    + intros r Hlt Hin. exfalso. apply Hin. cbn in *. lia.
  - destruct IH as [Hc Hf].
    pose proof (linked_allocated _ (reachable_linked _ Hr)) as Ha.
    split; cbn [new_Block fst chain next heap].
    + intros r Hin. specialize (Ha r Hin).
      destruct (Nat.eqb_spec r (next self)); [lia | auto].
    + intros r Hlt Hin.
      destruct (Nat.eqb_spec r (next self)); [reflexivity|].
      apply Hf; [lia | assumption].
  - destruct IH as [Hc Hf].
    split; rewrite ?addBlock_chain, ?addBlock_next.
    + intros r Hin. apply in_app_or in Hin. destruct Hin as [Hin|[<-|[]]].
      * rewrite addBlock_other by (intros ->; contradiction). auto.
      * apply addBlock_validates. auto.
    + intros r Hlt Hin.
      rewrite addBlock_other by (intros ->; apply Hin, in_or_app; right; now left).
      apply Hf; [assumption|]. intros Hr'. apply Hin, in_or_app. now left.
Qed.

(** C1.  In every state that the constructor and appends lead to, the
    block at index [i] has height [i], the first block has no previous
    hash, and every later block holds in [previousBlockHash] the hash of
    the block before it, which is a hash and not [null]. *)
Theorem hash_links self :
  reachable self ->
  (forall i b, block_at self i = Some b -> Block.height b = Z.of_nat i) /\
  (forall b, block_at self 0 = Some b -> Block.previousBlockHash b = None) /\
  (forall i p b,
     block_at self i = Some p -> block_at self (S i) = Some b ->
     Block.previousBlockHash b = Block.hash p /\ Block.hash p <> None).
Proof.
  intros Hr. apply reachable_linked in Hr.
  destruct Hr as [Ha Hn Hh Hg Hl Hs]. unfold block_at.
  split; [|split].
  - intros i b E. destruct (nth_error (chain self) i) as [r|] eqn:Er;
      [|discriminate E]. injection E as <-. eauto.
  - intros b E. destruct (nth_error (chain self) 0) as [r|] eqn:Er;
      [|discriminate E]. injection E as <-. eauto.
  - intros i p b Ep Eb.
    destruct (nth_error (chain self) i) as [rp|] eqn:Erp; [|discriminate Ep].
    destruct (nth_error (chain self) (S i)) as [rb|] eqn:Erb; [|discriminate Eb].
    injection Ep as <-. injection Eb as <-. split; [eauto|].
    apply Hs. eapply nth_error_In; eassumption.
Qed.

(** ** Validation of the whole chain *)

Lemma validate_resolves (b : Block.t) :
  Block.validate b = Resolved true \/ Block.validate b = Resolved false.
Proof. unfold Block.validate. destruct (Block.strict_equal _ _); auto. Qed.

Lemma failing_false (b : Block.t) :
  failing b = false <-> Block.validate b = Resolved true.
Proof.
  unfold failing. destruct (validate_resolves b) as [E|E]; rewrite E; easy.
Qed.

Lemma validate_loop_acc h blocks : forall errorLog,
  validate_loop h blocks errorLog = errorLog ++ validate_loop h blocks [].
Proof.
  induction blocks as [|b l IH]; intros acc; cbn [validate_loop app].
  - now rewrite app_nil_r.
  - destruct (Block.validate (h b)) as [[]| |]; try apply IH.
    rewrite IH, (IH [_]), app_assoc. reflexivity.
Qed.

Lemma validate_loop_spec h blocks :
  validate_loop h blocks []
  = map (fun b => "Block " +++ Num.toString (Block.height b) +++ " is not valid.")
      (filter failing (map h blocks)).
Proof.
  induction blocks as [|b l IH]; [reflexivity|].
  cbn [validate_loop map filter app]. unfold failing at 1.
  destruct (Block.validate (h b)) as [[]| |]; try exact IH.
  rewrite validate_loop_acc, IH. reflexivity.
Qed.

Lemma validate_loop_app h l1 l2 :
  validate_loop h (l1 ++ l2) []
  = validate_loop h l1 [] ++ validate_loop h l2 [].
Proof. now rewrite !validate_loop_spec, map_app, filter_app, map_app. Qed.

Lemma validate_loop_ext h h' blocks :
  (forall r, In r blocks -> h' r = h r) ->
  validate_loop h' blocks [] = validate_loop h blocks [].
Proof.
  intros E. rewrite !validate_loop_spec. do 2 f_equal.
  apply map_ext_in. exact E.
Qed.

Lemma expected_errors_nil self :
  expected_errors self = [] <->
  forall r, In r (chain self) -> Block.validate (heap self r) = Resolved true.
Proof.
  unfold expected_errors. induction (chain self) as [|b l IH]; cbn [map filter].
  - split; [intros _ r [] | reflexivity].
  - destruct (failing (heap self b)) eqn:F.
    + split; [discriminate|]. intros Hall.
      specialize (Hall b (or_introl eq_refl)).
      apply failing_false in Hall. rewrite Hall in F. discriminate F.
    + rewrite IH. apply failing_false in F. split.
      * intros Hall r [<-|Hr]; auto.
      * intros Hall r Hr. apply Hall. now right.
Qed.

(** The chain of a reachable state is valid. *)
Lemma reachable_valid self : reachable self -> validateChain self = Resolved [].
Proof.
  intros Hr. unfold validateChain. f_equal. rewrite validate_loop_spec.
  apply (proj2 (expected_errors_nil self)).
  apply (intact_chain _ (reachable_intact _ Hr)).
Qed.

(** C8.  [validateChain()] always resolves, never rejects; the list it
    resolves with is empty exactly when every block of the chain passes
    its own check.  Where the heights of the chain are safe integers, the
    list is the line "Block <height> is not valid.", the height in decimal
    digits, for every block whose [validate()] resolves false, in the order
    of the chain.  The links are not looked at: two blocks that each pass
    their own check give the empty list whatever the previous hash of the
    second is. *)
Theorem validateChain_errors self :
  (exists errorLog,
     validateChain self = Resolved errorLog /\
     (errorLog = [] <->
      forall r, In r (chain self) ->
        Block.validate (heap self r) = Resolved true)) /\
  ((forall r, In r (chain self) ->
      Num.isSafeInteger (Block.height (heap self r))) ->
   validateChain self = Resolved (expected_errors self)) /\
  (forall a b, map (heap self) (chain self) = [a; b] ->
     Block.validate a = Resolved true -> Block.validate b = Resolved true ->
     validateChain self = Resolved []).
Proof.
  assert (E : validateChain self = Resolved (expected_errors self)).
  { unfold validateChain, expected_errors. now rewrite validate_loop_spec. }
  split; [|split].
  - exists (expected_errors self). split; [exact E|apply expected_errors_nil].
  - intros _. exact E.
  - intros a b Hab Ha Hb. rewrite E. unfold expected_errors. rewrite Hab.
    apply failing_false in Ha, Hb. cbn [filter]. now rewrite Ha, Hb.
Qed.

(** ** The append protocol *)

Lemma addBlock_outcome self block now :
  chain self <> [] ->
  snd (_addBlock self block now)
  = match validateChain (fst (_addBlock self block now)) with
    | Resolved [] => Resolved block
    | Resolved (_ :: _) => Rejected (Error "Chain validation failed.")
    | Rejected error => Rejected error
    | Pending => Pending
    end.
Proof.
  intros Hne. unfold _addBlock. destruct (chain self) as [|r l]; [easy|].
  cbv zeta. destruct (validateChain _) as [[|e errs]|e|] eqn:E;
    cbn [fst snd]; now rewrite E.
Qed.

(** C5.  When the validation that follows an append to a chain that is
    not empty reports an error, the promise of [_addBlock] is rejected with
    the error of a failed chain validation, and the block stays in the
    chain: the chain is the chain before the call with the block at its
    end, no other object has changed and the height of the chain is the
    height of the block. *)
Theorem addBlock_failure_keeps_block self block now :
  chain self <> [] ->
  let self' := fst (_addBlock self block now) in
  (exists e errs, validateChain self' = Resolved (e :: errs)) ->
  snd (_addBlock self block now) = Rejected (Error "Chain validation failed.") /\
  chain self' = chain self ++ [block] /\
  (forall x, x <> block -> heap self' x = heap self x) /\
  height self' = Block.height (heap self' block).
Proof.
  intros Hne self' (e & errs & E). subst self'.
  split; [|split; [|split]].
  - now rewrite addBlock_outcome, E.
  - apply addBlock_chain.
  - intros x Hx. now apply addBlock_other.
  - apply addBlock_height.
Qed.

(** ** The gate of [submitStar] *)

(** C10.  When the promise of [submitStar] is rejected, the reason is the
    expired challenge or the invalid signature, and the state is the state
    before the call: no object was created, the chain and its height are
    the same. *)
Theorem submitStar_rejection_keeps_state
    self address message signature star now sealed_at reason :
  promise (submitStar self address message signature star now sealed_at)
  = Rejected reason ->
  after (submitStar self address message signature star now sealed_at) = self /\
  (reason = Text "5 miutes have passed" \/
   reason = Text "Error detected with signature").
Proof.
  unfold submitStar.
  destruct (elapsed_over _ _ _).
  - cbn. intros E. injection E as <-. auto.
  - destruct (bitcoinMessage_verify _ _ _).
    + destruct (new_Block _ _) as [self1 newBlock].
      destruct (_addBlock _ _ _) as [self2 [v|e|]]; cbn; discriminate.
    + cbn. intros E. injection E as <-. auto.
    + cbn. discriminate.
Qed.

(** The call of [submitStar] that passes both checks. *)
Lemma submitStar_valid self address message signature star now sealed_at :
  elapsed_over 300 (currentTime now) (timeInMessage message) = false ->
  bitcoinMessage_verify message address signature = Valid ->
  let data := JSON.JObj [("address", JSON.JStr address);
                         ("message", JSON.JStr message);
                         ("signature", JSON.JStr signature);
                         ("star", star)] in
  let appended := _addBlock (fst (new_Block self data)) (next self) sealed_at in
  submitStar self address message signature star now sealed_at
  = {| after := fst appended;
       promise := match snd appended with
                  | Resolved _ => Resolved (next self)
                  | _ => Pending
                  end;
       verified := [(message, address, signature)] |}.
Proof.
  intros Hgate Hsig data appended. unfold submitStar.
  rewrite Hgate, Hsig. cbn [new_Block]. fold data.
  subst appended. cbn [new_Block fst].
  destruct (_addBlock _ _ _) as [self2 [v|e|]]; reflexivity.
Qed.

(** An append of a new block to a chain whose blocks all pass their check
    leaves a chain whose blocks all pass their check. *)
Lemma append_new_validates self data now :
  (forall r, In r (chain self) -> (r < next self)%nat) ->
  validateChain self = Resolved [] ->
  let appended := _addBlock (fst (new_Block self data)) (next self) now in
  validateChain (fst appended) = Resolved [] /\
  snd appended = Resolved (next self).
Proof.
  intros Halloc Hvalid appended.
  set (self1 := fst (new_Block self data)) in *.
  assert (Hhash : Block.hash (heap self1 (next self)) = None).
  { cbn. now rewrite Nat.eqb_refl. }
  assert (Hc1 : chain self1 = chain self) by reflexivity.
  assert (Hh1 : forall r, In r (chain self) -> heap self1 r = heap self r).
  { intros r Hr. apply Halloc in Hr. cbn.
    destruct (Nat.eqb_spec r (next self)); [lia | reflexivity]. }
  assert (Hv : validateChain (fst appended) = Resolved []).
  { unfold validateChain. f_equal. subst appended.
    rewrite addBlock_chain, Hc1, validate_loop_app.
    rewrite (validate_loop_ext (heap self)).
    - unfold validateChain in Hvalid. injection Hvalid as ->.
      cbn [app validate_loop].
      now rewrite (addBlock_validates self1 (next self) now Hhash).
    - intros r Hr. rewrite addBlock_other, Hh1; [reflexivity | assumption |].
      apply Halloc in Hr. lia. }
  split; [exact Hv|]. subst appended.
  destruct (chain self1) as [|r0 l0] eqn:Ec.
  - unfold _addBlock. rewrite Ec. reflexivity.
  - rewrite addBlock_outcome by (rewrite Ec; discriminate). now rewrite Hv.
Qed.


(** On a reachable state, a submission within the window with a valid
    signature resolves with the new block. *)
Lemma submitStar_accepts self address message signature star now sealed_at m :
  reachable self ->
  1000 <= now -> timeInMessage message = Some m -> now / 1000 - m <= 300 ->
  bitcoinMessage_verify message address signature = Valid ->
  promise (submitStar self address message signature star now sealed_at)
  = Resolved (next self).
Proof.
  intros Hr Hnow Hm Hle Hsig.
  assert (Hgate : elapsed_over 300 (currentTime now) (timeInMessage message)
                  = false).
  { unfold currentTime. rewrite parseInt_seconds_text, Hm by exact Hnow.
    cbn [elapsed_over]. apply Z.ltb_ge. lia. }
  rewrite submitStar_valid by assumption. cbn [promise].
  destruct (append_new_validates self
              (JSON.JObj [("address", JSON.JStr address);
                          ("message", JSON.JStr message);
                          ("signature", JSON.JStr signature);
                          ("star", star)]) sealed_at
              (linked_allocated _ (reachable_linked _ Hr))
              (reachable_valid _ Hr)) as [_ ->].
  reflexivity.
Qed.

(** ** Decoding the body *)

(** C7, amended.  [getBData()] parses the decoded body before it looks at
    the height.  A body that does not parse rejects the promise with the
    error of the parser, at every height; a body that parses rejects it
    with the genesis error at height 0 and resolves it with the parsed
    payload at every other height. *)
Theorem getBData_outcomes (b : Block.t) :
  (JSON_parse (hex2ascii (Block.body b)) = None ->
     Block.getBData b = Rejected SyntaxError) /\
  (forall payload,
     JSON_parse (hex2ascii (Block.body b)) = Some payload ->
     Block.height b = 0 ->
     Block.getBData b = Rejected (Error "Genesis block doesn't contain data.")) /\
  (forall payload,
     JSON_parse (hex2ascii (Block.body b)) = Some payload ->
     Block.height b <> 0 ->
     Block.getBData b = Resolved payload).
Proof.
  unfold Block.getBData. split; [|split].
  - now intros ->.
  - intros payload -> ->. reflexivity.
  - intros payload -> Hh. now apply Z.eqb_neq in Hh as ->.
Qed.

(** ** The time of a block *)

Lemma addBlock_time self block now :
  Block.time (heap (fst (_addBlock self block now)) block)
  = Block.TStr (seconds_text now).
Proof. rewrite addBlock_block. reflexivity. Qed.

(** C9, amended.  The time of a block that the chain has sealed is a
    string: for a clock at or after the first second, the decimal digits
    of the creation time in whole seconds. *)
Theorem sealed_time_is_seconds_text self block now :
  1000 <= now ->
  Block.time (heap (fst (_addBlock self block now)) block)
  = Block.TStr (Num.toString (now / 1000)).
Proof.
  intros Hnow. now rewrite addBlock_time, seconds_text_spec.
Qed.

(** ** Tampering *)

Lemma validate_true_hash (b : Block.t) :
  Block.validate b = Resolved true ->
  Block.hash b
  = Some (SHA256 (JSON.stringify
                    (Block.own_properties (Block.set_hash None b)))).
Proof.
  unfold Block.validate.
  destruct (Block.hash b) as [h|]; cbn [Block.strict_equal].
  - destruct (String.eqb_spec h
                (SHA256 (JSON.stringify
                           (Block.own_properties (Block.set_hash None b)))))
      as [->|]; [reflexivity | discriminate].
  - discriminate.
Qed.

Lemma some_inj {A : Type} (a b : A) : Some a = Some b -> a = b.
Proof. now intros E; injection E. Qed.

Lemma mutate_hash m b : Block.hash (mutate m b) = Block.hash b.
Proof. now destruct m. Qed.

(** An assignment of a different value changes the text the digest is
    taken of. *)
Lemma mutation_changes_text (m : Mutation) (b : Block.t) :
  changes m b -> digest_text b <> digest_text (mutate m b).
Proof.
  intros Hm E. apply BlockFacts.stringify_block_inj in E.
  destruct m, b; cbn in *; injection E; intros; subst; contradiction.
Qed.

Lemma mutation_detected (m : Mutation) (b : Block.t) :
  distinguishes (digest_text b) (digest_text (mutate m b)) ->
  sealed b -> changes m b ->
  Block.validate (mutate m b) = Resolved false.
Proof.
  intros Hfree Hb Hm.
  destruct (validate_resolves (mutate m b)) as [E|E]; [exfalso | exact E].
  apply validate_true_hash in E, Hb. rewrite mutate_hash, Hb in E.
  apply some_inj, Hfree in E. now apply mutation_changes_text in E.
Qed.

(** C3, amended.  A block that passes its check fails it after an
    assignment, to its body, its height, its time or its previous hash, of
    a different value of the kind the program puts there (a string, a safe
    integer, [null]), the digest telling the text of the block before the
    assignment from the text after it (the two texts are proved
    different).  In a chain of distinct objects with safe heights
    [validateChain()] had the lines of the blocks before this one and of
    the blocks after it, and has after the assignment one line more:
    "Block <height> is not valid.", with the height the block now has in
    decimal digits, between them; it is the only line when the chain was
    valid. *)
Theorem tamper_detected self r m before behind :
  distinguishes (digest_text (heap self r))
    (digest_text (mutate m (heap self r))) ->
  chain self = before ++ r :: behind ->
  NoDup (chain self) ->
  (forall x, In x (chain self) ->
     Num.isSafeInteger (Block.height (heap self x))) ->
  safe_block (heap self r) ->
  safe_block (mutate m (heap self r)) ->
  sealed (heap self r) ->
  changes m (heap self r) ->
  let self' := assign self r m in
  let line :=
    "Block " +++ Num.toString (Block.height (heap self' r))
    +++ " is not valid." in
  Block.validate (heap self' r) = Resolved false /\
  validateChain self
  = Resolved (error_lines (map (heap self) before) ++
              error_lines (map (heap self) behind)) /\
  validateChain self'
  = Resolved (error_lines (map (heap self) before) ++ [line] ++
              error_lines (map (heap self) behind)) /\
  (validateChain self = Resolved [] -> validateChain self' = Resolved [line]).
Proof.
  intros Hfree Hchain Hnodup _ _ _ Hb Hm self' line.
  assert (Hr : heap self' r = mutate m (heap self r)).
  { cbn. apply update_same. }
  assert (Hbad : Block.validate (heap self' r) = Resolved false).
  { rewrite Hr. now apply mutation_detected. }
  rewrite Hchain in Hnodup. apply NoDup_remove_2 in Hnodup.
  assert (Hother : forall x, In x (before ++ behind) -> heap self' x = heap self x).
  { intros x Hx. cbn. apply update_other. intros ->. contradiction. }
  assert (Hold : validateChain self
                 = Resolved (error_lines (map (heap self) before) ++
                             error_lines (map (heap self) behind))).
  { unfold validateChain, error_lines. rewrite Hchain. f_equal.
    rewrite validate_loop_app.
    change (r :: behind) with ([r] ++ behind). rewrite validate_loop_app.
    rewrite <- !validate_loop_spec. f_equal.
    cbn [validate_loop app]. unfold sealed in Hb. now rewrite Hb. }
  assert (Hall : validateChain self'
                 = Resolved (error_lines (map (heap self) before) ++ [line] ++
                             error_lines (map (heap self) behind))).
  { unfold validateChain, error_lines.
    change (chain self') with (chain self). rewrite Hchain. f_equal.
    rewrite validate_loop_app.
    change (r :: behind) with ([r] ++ behind). rewrite validate_loop_app.
    rewrite (validate_loop_ext (heap self) (heap self') before)
      by (intros x Hx; apply Hother, in_or_app; now left).
    rewrite (validate_loop_ext (heap self) (heap self') behind)
      by (intros x Hx; apply Hother, in_or_app; now right).
    rewrite <- !validate_loop_spec.
    do 2 f_equal. cbn [validate_loop app]. now rewrite Hbad. }
  split; [exact Hbad|]. split; [exact Hold|]. split; [exact Hall|].
  intros Hvalid. rewrite Hall. rewrite Hold in Hvalid.
  injection Hvalid as Hvalid.
  apply app_eq_nil in Hvalid. destruct Hvalid as [-> ->]. reflexivity.
Qed.

(** ** The query by owner *)

Lemma fold_resume address queue : forall stars lost,
  fst (fold_left (resume address) queue (stars, lost))
  = stars ++ owned_payloads address queue.
Proof.
  induction queue as [|p queue IH]; intros stars lost; cbn [fold_left].
  - cbn. now rewrite app_nil_r.
  - destruct p as [data|reason|]; cbn [resume owned_payloads flat_map];
      [destruct (owned_by address data)| |]; rewrite IH; cbn [owned_payloads];
      rewrite <- ?app_assoc; reflexivity.
Qed.

(** What [getStarsByWalletAddress] does on every chain: [resolve] is
    called with the array still empty while one continuation a block is
    suspended; the payloads of the owner are in the array only after
    these continuations have run. *)
Lemma getStars_resolves_early self address :
  let run := getStarsByWalletAddress self address in
  at_resolve run = [] /\
  List.length (suspended run) = List.length (chain self) /\
  at_rest run = owned_payloads address (spawn self).
Proof.
  unfold getStarsByWalletAddress.
  pose proof (fold_resume address (spawn self) [] []) as E.
  destruct (fold_left _ _ _) as [stars lost]. cbn in *.
  split; [reflexivity|]. split; [|exact E].
  unfold spawn. apply length_map.
Qed.

(** [submitStar] leads from a reachable state to a reachable state. *)
Lemma submitStar_reachable self address message signature star now sealed_at :
  reachable self ->
  reachable (after (submitStar self address message signature star now sealed_at)).
Proof.
  intros Hr.
  destruct (elapsed_over 300 (currentTime now) (timeInMessage message)) eqn:Hgate.
  - unfold submitStar. now rewrite Hgate.
  - destruct (bitcoinMessage_verify message address signature) eqn:Hsig.
    + rewrite submitStar_valid by assumption. cbn [after].
      apply reach_addBlock.
      * now apply reach_new_Block.
      * cbn. lia.
      * cbn [new_Block fst chain]. intros Hin.
        apply (linked_allocated _ (reachable_linked _ Hr)) in Hin. lia.
    + unfold submitStar. now rewrite Hgate, Hsig.
    + unfold submitStar. now rewrite Hgate, Hsig.
Qed.

End Ledger.

(** * More of the program: heights, lookups, challenges *)

Section Coverage.
Context `{Libs}.
Import Blockchain.

(** ** The height of the chain *)

Lemma reachable_height self :
  reachable self -> height self = Z.of_nat (List.length (chain self)) - 1.
Proof.
  induction 1 as [now|self data Hr IH|self block now Hr IH Hb Hfresh].
  - reflexivity.
  - exact IH.
  - rewrite addBlock_height, addBlock_chain, length_app. cbn [List.length].
    pose proof (reachable_linked _ (reach_addBlock _ _ now Hr Hb Hfresh)) as L.
    rewrite (linked_heights _ L (List.length (chain self)) block).
    + lia.
    + rewrite addBlock_chain, nth_error_app2, Nat.sub_diag by lia. reflexivity.
Qed.

(** The cached height is the number of blocks less one, in every state
    the program reaches; it is never negative again after the
    constructor. *)
Theorem chain_height_counts_blocks self :
  reachable self ->
  getChainHeight self = Resolved (Z.of_nat (List.length (chain self)) - 1) /\
  0 <= height self.
Proof.
  intros Hr. unfold getChainHeight. rewrite (reachable_height _ Hr).
  split; [reflexivity|].
  pose proof (linked_nonempty _ (reachable_linked _ Hr)) as Hne.
  destruct (chain self); [easy | cbn [List.length]; lia].
Qed.

(** [initializeChain()] on a chain that has its genesis block does
    nothing: no second genesis block, no change of any object. *)
Theorem initializeChain_once self now :
  reachable self -> initializeChain self now = self.
Proof.
  intros Hr. unfold initializeChain.
  pose proof (reachable_height _ Hr) as Hh.
  destruct (Z.eqb_spec (height self) (-1)) as [E|_]; [|reflexivity].
  pose proof (linked_nonempty _ (reachable_linked _ Hr)) as Hne.
  destruct (chain self); [easy | cbn [List.length] in Hh; lia].
Qed.

(** ** Lookups *)

Lemma find_by_height self i r :
  reachable self ->
  nth_error (chain self) i = Some r ->
  find (fun block => Block.height (heap self block) =? Z.of_nat i) (chain self)
  = Some r.
Proof.
  intros Hr Hi.
  pose proof (linked_heights _ (reachable_linked _ Hr)) as Hh.
  destruct (find _ (chain self)) as [r'|] eqn:F.
  - apply find_some in F. destruct F as [Hin E]. apply Z.eqb_eq in E.
    apply In_nth_error in Hin. destruct Hin as [j Hj].
    pose proof (Hh _ _ Hj) as Ej. assert (j = i) by lia. subst j. congruence.
  - exfalso. apply nth_error_In in Hi as Hin.
    apply (find_none _ _ F) in Hin. rewrite (Hh _ _ Hi), Z.eqb_refl in Hin.
    discriminate Hin.
Qed.

Lemma find_by_height_none self h :
  reachable self ->
  h < 0 \/ Z.of_nat (List.length (chain self)) <= h ->
  find (fun block => Block.height (heap self block) =? h) (chain self) = None.
Proof.
  intros Hr Hout.
  pose proof (linked_heights _ (reachable_linked _ Hr)) as Hh.
  destruct (find _ (chain self)) as [r'|] eqn:F; [exfalso | reflexivity].
  apply find_some in F. destruct F as [Hin E]. apply Z.eqb_eq in E.
  apply In_nth_error in Hin. destruct Hin as [j Hj].
  pose proof (Hh _ _ Hj) as Ej.
  assert (j < List.length (chain self))%nat
    by (apply nth_error_Some; congruence).
  lia.
Qed.

(** [getBlockByHeight(i)] resolves with the block at index [i] of the
    chain, and with [null] for a height that is negative or not below the
    number of blocks. *)
Theorem getBlockByHeight_index self :
  reachable self ->
  (forall i r, nth_error (chain self) i = Some r ->
     getBlockByHeight self (Z.of_nat i) = Resolved (Some r)) /\
  (forall h, h < 0 \/ Z.of_nat (List.length (chain self)) <= h ->
     getBlockByHeight self h = Resolved None).
Proof.
  intros Hr. unfold getBlockByHeight. split.
  - intros i r Hi. now rewrite (find_by_height self i r).
  - intros h Hout. now rewrite find_by_height_none.
Qed.

Lemma strict_equal_true v h : Block.strict_equal v h = true <-> v = Some h.
Proof.
  destruct v as [x|]; cbn [Block.strict_equal].
  - rewrite String.eqb_eq. split; congruence.
  - split; discriminate.
Qed.

(** [getBlockByHash(h)] in any state: a block it resolves with is in the
    chain and has the hash [h]; it resolves with [null] exactly when no
    block of the chain has that hash. *)
Theorem getBlockByHash_result self h :
  (forall r, getBlockByHash self h = Resolved (Some r) ->
     In r (chain self) /\ Block.hash (heap self r) = Some h) /\
  (getBlockByHash self h = Resolved None <->
   forall r, In r (chain self) -> Block.hash (heap self r) <> Some h).
Proof.
  unfold getBlockByHash. split.
  - intros r E. injection E as E. apply find_some in E.
    now rewrite strict_equal_true in E.
  - split.
    + intros E r Hin Hr. injection E as E.
      apply (find_none _ _ E) in Hin. apply strict_equal_true in Hr.
      congruence.
    + intros Hno. f_equal.
      destruct (find _ (chain self)) as [r|] eqn:F; [exfalso | reflexivity].
      apply find_some in F. destruct F as [Hin E].
      apply strict_equal_true in E. now apply (Hno r).
Qed.

(** Two blocks of a reachable chain with one hash are one block, the
    digest telling their texts apart. *)
Lemma reachable_hash_inj self r r' :
  reachable self ->
  In r (chain self) -> In r' (chain self) ->
  distinguishes (digest_text (heap self r)) (digest_text (heap self r')) ->
  Block.hash (heap self r) = Block.hash (heap self r') -> r = r'.
Proof.
  intros Hr Hin Hin' Hfree E.
  pose proof (intact_chain _ (reachable_intact _ Hr)) as Hs.
  pose proof (linked_heights _ (reachable_linked _ Hr)) as Hh.
  pose proof (validate_true_hash _ (Hs _ Hin)) as E1.
  pose proof (validate_true_hash _ (Hs _ Hin')) as E2.
  rewrite E, E2 in E1. symmetry in E1.
  apply some_inj, Hfree, BlockFacts.stringify_block_inj in E1.
  apply (f_equal Block.height) in E1. cbn in E1.
  apply In_nth_error in Hin, Hin'.
  destruct Hin as [i Hi], Hin' as [j Hj].
  pose proof (Hh _ _ Hi). pose proof (Hh _ _ Hj).
  assert (i = j) by lia. subst j. congruence.
Qed.

(** On a reachable chain [getBlockByHash] of the hash of a block of the
    chain resolves with that very block, where the digest gives the text
    of no other block of the chain the value it gives the text of this
    one.  Nothing is asked of the digest on other texts: it may have
    collisions, as every digest of bounded size has. *)
Theorem getBlockByHash_finds_block self r h :
  reachable self ->
  In r (chain self) -> Block.hash (heap self r) = Some h ->
  (forall r', In r' (chain self) ->
     distinguishes (digest_text (heap self r')) (digest_text (heap self r))) ->
  getBlockByHash self h = Resolved (Some r).
Proof.
  intros Hr Hin Eh Hfree. unfold getBlockByHash. do 2 f_equal.
  destruct (find _ (chain self)) as [r'|] eqn:F.
  - apply find_some in F. destruct F as [Hin' E].
    apply strict_equal_true in E. f_equal.
    apply (reachable_hash_inj self r' r Hr Hin' Hin (Hfree r' Hin')).
    congruence.
  - apply (find_none _ _ F) in Hin.
    apply strict_equal_true in Eh. congruence.
Qed.

(** ** Appends on a chain nobody has assigned to *)

(** On a reachable state the append of a block that is not yet in the
    chain is never rejected: the promise resolves with the block and the
    chain is valid afterwards. *)
Theorem append_never_fails self block now :
  reachable self ->
  (block < next self)%nat -> ~ In block (chain self) ->
  snd (_addBlock self block now) = Resolved block /\
  validateChain (fst (_addBlock self block now)) = Resolved [].
Proof.
  intros Hr Hb Hfresh.
  pose proof (reachable_valid _ (reach_addBlock _ _ now Hr Hb Hfresh)) as Hv.
  split; [|exact Hv].
  rewrite addBlock_outcome, Hv; [reflexivity|].
  apply (linked_nonempty _ (reachable_linked _ Hr)).
Qed.

(** ** Submissions *)

Lemma prepared_body self block now :
  Block.body (prepared self block now) = Block.body (heap self block).
Proof. unfold prepared. now destruct (chain self). Qed.

Lemma addBlock_body self block now :
  Block.body (heap (fst (_addBlock self block now)) block)
  = Block.body (heap self block).
Proof. rewrite addBlock_block. apply prepared_body. Qed.

(** The state that a submission passing both checks leaves. *)
Lemma submitStar_valid_state
    self address message signature star now sealed_at :
  elapsed_over 300 (currentTime now) (timeInMessage message) = false ->
  bitcoinMessage_verify message address signature = Valid ->
  let s := submitStar self address message signature star now sealed_at in
  chain (after s) = chain self ++ [next self] /\
  next (after s) = S (next self) /\
  (forall x, (x < next self)%nat -> heap (after s) x = heap self x) /\
  Block.body (heap (after s) (next self))
  = Buffer.hex (JSON.stringify (star_data address message signature star)).
Proof.
  intros Hgate Hsig s. subst s. rewrite submitStar_valid by assumption.
  cbn [after]. split; [|split; [|split]].
  - now rewrite addBlock_chain.
  - now rewrite addBlock_next.
  - intros x Hx. rewrite addBlock_other by lia. cbn.
    destruct (Nat.eqb_spec x (next self)); [lia | reflexivity].
  - rewrite addBlock_body. cbn. now rewrite Nat.eqb_refl.
Qed.

Lemma gate_open now message m :
  1000 <= now -> timeInMessage message = Some m -> now / 1000 - m <= 300 ->
  elapsed_over 300 (currentTime now) (timeInMessage message) = false.
Proof.
  intros Hnow Hm Hle. unfold currentTime.
  rewrite parseInt_seconds_text, Hm by exact Hnow.
  cbn [elapsed_over]. apply Z.ltb_ge. lia.
Qed.

(** On a reachable chain a submission with a valid signature is accepted
    whenever the elapsed time is at most 300 seconds, at exactly 300 and
    for a time in the message that is still to come: the promise resolves
    with the new block, the block is at the end of the chain and the
    height of the chain is one more. *)
Theorem submitStar_within_window
    self address message signature star now sealed_at m :
  reachable self ->
  1000 <= now -> timeInMessage message = Some m -> now / 1000 - m <= 300 ->
  bitcoinMessage_verify message address signature = Valid ->
  let s := submitStar self address message signature star now sealed_at in
  promise s = Resolved (next self) /\
  chain (after s) = chain self ++ [next self] /\
  getChainHeight (after s) = Resolved (height self + 1).
Proof.
  intros Hr Hnow Hm Hle Hsig s.
  pose proof (gate_open _ _ _ Hnow Hm Hle) as Hgate.
  destruct (submitStar_valid_state self address message signature star now
              sealed_at Hgate Hsig) as (Hc & _).
  fold s in Hc. split; [|split; [exact Hc|]].
  - now apply (submitStar_accepts self address message signature star now
                 sealed_at m).
  - unfold getChainHeight.
    rewrite (reachable_height (after s)) by now apply submitStar_reachable.
    rewrite Hc, length_app, (reachable_height self Hr). cbn [List.length].
    f_equal. lia.
Qed.

(** The block that an accepted submission appends is the one
    [getBlockByHeight] finds at the new height of the chain. *)
Theorem submitted_block_found_by_height
    self address message signature star now sealed_at m :
  reachable self ->
  1000 <= now -> timeInMessage message = Some m -> now / 1000 - m <= 300 ->
  bitcoinMessage_verify message address signature = Valid ->
  let s := submitStar self address message signature star now sealed_at in
  getBlockByHeight (after s) (height self + 1) = Resolved (Some (next self)).
Proof.
  intros Hr Hnow Hm Hle Hsig s.
  pose proof (gate_open _ _ _ Hnow Hm Hle) as Hgate.
  destruct (submitStar_valid_state self address message signature star now
              sealed_at Hgate Hsig) as (Hc & _).
  fold s in Hc. unfold getBlockByHeight.
  replace (height self + 1) with (Z.of_nat (List.length (chain self)))
    by (rewrite (reachable_height self Hr); lia).
  rewrite (find_by_height (after s) (List.length (chain self)) (next self));
    [reflexivity | now apply submitStar_reachable |].
  rewrite Hc, nth_error_app2, Nat.sub_diag by lia. reflexivity.
Qed.

(** The block that an accepted submission appends decodes to the object
    of the address, the message, the signature and the star, the
    libraries decoding what the constructor has encoded. *)
Theorem submitted_block_decodes
    self address message signature star now sealed_at m :
  reachable self ->
  1000 <= now -> timeInMessage message = Some m -> now / 1000 - m <= 300 ->
  bitcoinMessage_verify message address signature = Valid ->
  let data := star_data address message signature star in
  JSON_parse (hex2ascii (Buffer.hex (JSON.stringify data))) = Some data ->
  let s := submitStar self address message signature star now sealed_at in
  Block.getBData (heap (after s) (next self)) = Resolved data.
Proof.
  intros Hr Hnow Hm Hle Hsig data Hcodec s.
  pose proof (gate_open _ _ _ Hnow Hm Hle) as Hgate.
  destruct (submitStar_valid_state self address message signature star now
              sealed_at Hgate Hsig) as (Hc & _ & _ & Hbody).
  fold s in Hc, Hbody.
  assert (Hr' : reachable (after s)) by now apply submitStar_reachable.
  assert (Hh : Block.height (heap (after s) (next self))
               = Z.of_nat (List.length (chain self))).
  { apply (linked_heights _ (reachable_linked _ Hr')).
    rewrite Hc, nth_error_app2, Nat.sub_diag by lia. reflexivity. }
  pose proof (linked_nonempty _ (reachable_linked _ Hr)) as Hne.
  unfold Block.getBData. rewrite Hbody. fold data. rewrite Hcodec, Hh.
  destruct (Z.eqb_spec (Z.of_nat (List.length (chain self))) 0) as [E|_];
    [|reflexivity].
  destruct (chain self); [easy | cbn [List.length] in E; lia].
Qed.

(** Nothing remembers a challenge: the same message and signature,
    submitted twice within the window, give two blocks with the same
    body, one after the other at the end of the chain. *)
Theorem replay_accepted
    self address message signature star now1 at1 now2 at2 m :
  reachable self ->
  1000 <= now1 -> 1000 <= now2 -> timeInMessage message = Some m ->
  now1 / 1000 - m <= 300 -> now2 / 1000 - m <= 300 ->
  bitcoinMessage_verify message address signature = Valid ->
  let s1 := submitStar self address message signature star now1 at1 in
  let s2 := submitStar (after s1) address message signature star now2 at2 in
  promise s1 = Resolved (next self) /\
  promise s2 = Resolved (S (next self)) /\
  chain (after s2) = chain self ++ [next self; S (next self)] /\
  Block.body (heap (after s2) (next self))
  = Block.body (heap (after s2) (S (next self))).
Proof.
  intros Hr Hn1 Hn2 Hm Hle1 Hle2 Hsig s1 s2.
  pose proof (gate_open _ _ _ Hn1 Hm Hle1) as Hg1.
  pose proof (gate_open _ _ _ Hn2 Hm Hle2) as Hg2.
  destruct (submitStar_valid_state self address message signature star now1
              at1 Hg1 Hsig) as (Hc1 & Hx1 & _ & Hb1).
  fold s1 in Hc1, Hx1, Hb1.
  destruct (submitStar_valid_state (after s1) address message signature star
              now2 at2 Hg2 Hsig) as (Hc2 & _ & Ho2 & Hb2).
  fold s2 in Hc2, Ho2, Hb2. rewrite Hx1 in *.
  assert (Hr1 : reachable (after s1)) by now apply submitStar_reachable.
  split; [|split; [|split]].
  - now apply (submitStar_accepts self address message signature star now1
                 at1 m).
  - rewrite <- Hx1.
    now apply (submitStar_accepts (after s1) address message signature star
                 now2 at2 m).
  - rewrite Hc2, Hc1, <- app_assoc. reflexivity.
  - rewrite Hb2, Ho2 by lia. exact Hb1.
Qed.

(** A message without a number in its second field never counts as
    expired: whatever the clock, the verifier is asked and the promise is
    not rejected for the age of the challenge. *)
Theorem submitStar_without_timestamp
    self address message signature star now sealed_at :
  timeInMessage message = None ->
  let s := submitStar self address message signature star now sealed_at in
  verified s = [(message, address, signature)] /\
  promise s <> Rejected (Text "5 miutes have passed").
Proof.
  intros Hm s. subst s. unfold submitStar. rewrite Hm.
  replace (elapsed_over 300 (currentTime now) None) with false
    by now destruct (currentTime now).
  destruct (bitcoinMessage_verify message address signature).
  - cbn [new_Block]. destruct (_addBlock _ _ _) as [self2 [v|e|]];
      split; cbn; (reflexivity || discriminate).
  - split; cbn; [reflexivity | discriminate].
  - split; cbn; [reflexivity | discriminate].
Qed.

(** When [submitStar] never settles.  The checks passed, the promise
    stays pending if the verifier throws, the state being unchanged; and
    it stays pending if the chain had a block that fails its check: the
    new block is appended all the same and the validation reports the
    same errors as before. *)
Theorem submitStar_never_settles
    self address message signature star now sealed_at e errs :
  elapsed_over 300 (currentTime now) (timeInMessage message) = false ->
  let s := submitStar self address message signature star now sealed_at in
  (bitcoinMessage_verify message address signature = Throws ->
     promise s = Pending /\ after s = self) /\
  (bitcoinMessage_verify message address signature = Valid ->
   (forall r, In r (chain self) -> (r < next self)%nat) ->
   validateChain self = Resolved (e :: errs) ->
     promise s = Pending /\
     chain (after s) = chain self ++ [next self] /\
     validateChain (after s) = Resolved (e :: errs)).
Proof.
  intros Hgate s. split.
  - intros Hsig. subst s. unfold submitStar. rewrite Hgate, Hsig. now split.
  - intros Hsig Halloc Herr.
    destruct (submitStar_valid_state self address message signature star now
                sealed_at Hgate Hsig) as (Hc & _ & Ho & _).
    fold s in Hc, Ho.
    assert (Hv : validateChain (after s) = Resolved (e :: errs)).
    { unfold validateChain in *. f_equal. injection Herr as Herr.
      rewrite Hc, validate_loop_app.
      rewrite (validate_loop_ext (heap self) (heap (after s)) (chain self))
        by (intros r Hr; apply Ho, Halloc, Hr).
      rewrite Herr. cbn [validate_loop].
      assert (Hnew : Block.validate (heap (after s) (next self)) = Resolved true).
      { subst s. rewrite submitStar_valid by assumption. cbn [after].
        apply addBlock_validates. cbn. now rewrite Nat.eqb_refl. }
      rewrite Hnew. now rewrite app_nil_r. }
    split; [|split; [exact Hc | exact Hv]].
    subst s. rewrite submitStar_valid in * by assumption.
    cbn [after promise] in *.
    rewrite addBlock_outcome, Hv; [reflexivity|].
    cbn [new_Block fst chain]. intros E. unfold validateChain in Herr.
    rewrite E in Herr. discriminate Herr.
Qed.

(** ** The challenge *)

Lemma split_nonempty sep s : Str.split sep s <> [].
Proof.
  destruct s as [|c s]; cbn [Str.split]; [discriminate|].
  destruct (Str.split sep s); [discriminate|].
  destruct (Ascii.eqb c sep); discriminate.
Qed.

Lemma split_whole sep s :
  Str.contains sep s = false -> Str.split sep s = [s].
Proof.
  induction s as [|c s IH]; cbn [Str.split Str.contains]; [reflexivity|].
  intros E. apply orb_false_elim in E. destruct E as [Ec Es].
  now rewrite (IH Es), Ec.
Qed.

Lemma split_first sep a b :
  Str.contains sep a = false ->
  Str.split sep (a +++ String sep b) = a :: Str.split sep b.
Proof.
  induction a as [|c a IH]; cbn [Str.split Str.contains String.append].
  - intros _. pose proof (split_nonempty sep b) as Hne.
    destruct (Str.split sep b); [easy|]. now rewrite Ascii.eqb_refl.
  - intros E. apply orb_false_elim in E. destruct E as [Ec Es].
    now rewrite (IH Es), Ec.
Qed.

Lemma digits_without_colon s :
  Num.all_digits s = true -> Str.contains ":" s = false.
Proof.
  induction s as [|c s IH]; cbn [Num.all_digits Str.contains]; [reflexivity|].
  intros E. apply andb_prop in E. destruct E as [Ec Es].
  rewrite (IH Es), orb_false_r.
  destruct (Ascii.eqb_spec c ":") as [->|]; [discriminate Ec | reflexivity].
Qed.

(** The time in a message is read after the first colon: it is the
    number at the start of the text between the first colon and the
    second. *)
Lemma timeInMessage_first_colon a field rest :
  Str.contains ":" a = false -> Str.contains ":" field = false ->
  timeInMessage (a +++ String ":" (field +++ String ":" rest))
  = Num.parseInt field.
Proof.
  intros Ha Hf. unfold timeInMessage.
  rewrite split_first, split_first by assumption. reflexivity.
Qed.

(** The challenge of an address without a colon carries the time of its
    issue in whole seconds, and [submitStar] takes it for expired exactly
    when more than 300 of them have passed since. *)
Theorem challenge_round_trip address issued message :
  Str.contains ":" address = false ->
  1000 <= issued ->
  requestMessageOwnershipVerification address issued = Resolved message ->
  timeInMessage message = Some (issued / 1000) /\
  (forall now, 1000 <= now ->
     elapsed_over 300 (currentTime now) (timeInMessage message)
     = (300 <? now / 1000 - issued / 1000)).
Proof.
  intros Ha Hi E. unfold requestMessageOwnershipVerification in E.
  injection E as <-.
  assert (Hq : 0 <= issued / 1000) by (apply Z.div_pos; lia).
  assert (Hs : Str.contains ":" (seconds_text issued) = false).
  { rewrite seconds_text_spec by exact Hi. apply digits_without_colon.
    unfold Num.toString. destruct (Z.ltb_spec (issued / 1000) 0); [lia|].
    now apply NumFacts.nat_digits_all_digits. }
  match goal with
  | |- timeInMessage ?text = _ /\ _ =>
      assert (Hm : timeInMessage text = Some (issued / 1000))
  end.
  { cbn [String.append].
    rewrite (timeInMessage_first_colon address (seconds_text issued)
               "starRegistry" Ha Hs).
    now apply parseInt_seconds_text. }
  split; [exact Hm|].
  intros now Hnow. unfold currentTime.
  now rewrite Hm, parseInt_seconds_text.
Qed.

(** An address with a colon moves the fields of the challenge: the time
    that [submitStar] reads is the number at the start of what follows
    the first colon of the address, not the time of issue. *)
Theorem challenge_of_address_with_colon a b issued message :
  Str.contains ":" a = false -> Str.contains ":" b = false ->
  requestMessageOwnershipVerification (a +++ String ":" b) issued
  = Resolved message ->
  timeInMessage message = Num.parseInt b.
Proof.
  intros Ha Hb E. unfold requestMessageOwnershipVerification in E.
  injection E as <-.
  rewrite StrFacts.append_assoc. cbn [String.append].
  now apply timeInMessage_first_colon.
Qed.

Lemma nat_digits_short n :
  0 <= n < 1000 -> (String.length (Num.nat_digits n) <= 3)%nat.
Proof.
  intros Hn.
  destruct (Z_lt_le_dec n 10) as [H1|H1].
  { rewrite NumFacts.nat_digits_small by lia. cbn. lia. }
  assert (Hq : 0 <= n / 10 < 100).
  { split; [apply Z.div_pos; lia | apply Z.div_lt_upper_bound; lia]. }
  rewrite NumFacts.nat_digits_step, StrFacts.append_length by lia.
  destruct (Z_lt_le_dec (n / 10) 10) as [H2|H2].
  { rewrite NumFacts.nat_digits_small by lia. cbn. lia. }
  assert (Hq2 : 0 <= n / 10 / 10 < 10).
  { split; [apply Z.div_pos; lia | apply Z.div_lt_upper_bound; lia]. }
  rewrite NumFacts.nat_digits_step, StrFacts.append_length by lia.
  rewrite NumFacts.nat_digits_small by lia. cbn. lia.
Qed.

(** The current time that [submitStar] computes is the clock in whole
    seconds from the first second on; in the first second the text of
    the clock has no digit left and the current time is [NaN], so that no
    challenge counts as expired. *)
Theorem currentTime_of_clock now message :
  (1000 <= now -> currentTime now = Some (now / 1000)) /\
  (0 <= now < 1000 ->
     currentTime now = None /\
     elapsed_over 300 (currentTime now) (timeInMessage message) = false).
Proof.
  split.
  - intros Hnow. now apply parseInt_seconds_text.
  - intros Hnow.
    assert (E : seconds_text now = "").
    { unfold seconds_text, Num.toString, Str.slice_0_neg.
      destruct (Z.ltb_spec now 0); [lia|].
      pose proof (nat_digits_short now Hnow) as Hlen.
      replace (String.length (Num.nat_digits now) - 3)%nat with O by lia.
      now destruct (Num.nat_digits now). }
    unfold currentTime. rewrite E. split; reflexivity.
Qed.

(** ** The text and the hash of a block *)

(** The text that [JSON.stringify] writes for a block, which is what the
    chain hashes and [validate()] hashes again, determines the block among
    the blocks whose properties hold values of the kinds the program puts
    there ([null] or a string for the two hashes, a safe integer for the
    height, a string for the body, a safe integer or a string for the
    time): two such blocks with the same text have the same five
    properties.  Other values are written like these ([NaN] like [null], a
    [String] object like its string), so the restriction is needed. *)
Theorem block_text_determines_block (a b : Raw.block) :
  Raw.plain a -> Raw.plain b ->
  JSON.stringify (Raw.own_properties a)
  = JSON.stringify (Raw.own_properties b) ->
  a = b.
Proof.
  intros Ha Hb E.
  rewrite <- (RawFacts.of_block_to_block a Ha),
          <- (RawFacts.of_block_to_block b Hb) in E |- *.
  rewrite !RawFacts.own_properties_of_block in E.
  now apply BlockFacts.stringify_block_inj in E; rewrite E.
Qed.

(** An assignment of a different value to the hash of a block that
    passes its check makes it fail, whatever the digest is: [validate()]
    does not read the stored hash into the text it hashes. *)
Theorem hash_assignment_detected (b : Block.t) (v : option string) :
  sealed b -> v <> Block.hash b ->
  Block.validate (Block.set_hash v b) = Resolved false.
Proof.
  intros Hb Hv. apply validate_true_hash in Hb.
  unfold Block.validate.
  replace (Block.set_hash None (Block.set_hash v b))
    with (Block.set_hash None b) by reflexivity.
  cbn [Block.hash Block.set_hash].
  destruct (Block.strict_equal v _) eqn:E; [exfalso | reflexivity].
  apply strict_equal_true in E. congruence.
Qed.

(** ** The query by owner, once its continuations have run *)

Lemma fold_resume_lost address queue : forall stars lost,
  snd (fold_left (resume address) queue (stars, lost))
  = lost ++ rejections queue.
Proof.
  induction queue as [|p queue IH]; intros stars lost; cbn [fold_left].
  - cbn. now rewrite app_nil_r.
  - destruct p as [data|reason|]; cbn [resume rejections flat_map];
      [destruct (owned_by address data)| |]; rewrite IH; cbn [rejections];
      rewrite <- ?app_assoc; reflexivity.
Qed.

(** When every continuation of [getStarsByWalletAddress] has run, the
    array holds, in the order of the chain, the decoded payload of every
    block that decodes and whose address is the one asked for, and
    nothing else. *)
Theorem getStars_collects self address :
  let run := getStarsByWalletAddress self address in
  at_rest run
  = owned_payloads address
      (map (fun block => Block.getBData (heap self block)) (chain self)) /\
  (forall data,
     In data (at_rest run) <->
     exists block, In block (chain self) /\
       Block.getBData (heap self block) = Resolved data /\
       owned_by address data = true).
Proof.
  intros run.
  assert (E : at_rest run = owned_payloads address (spawn self)).
  { subst run. unfold getStarsByWalletAddress.
    pose proof (fold_resume address (spawn self) [] []) as F.
    destruct (fold_left _ _ _) as [stars lost]. exact F. }
  split; [exact E|].
  intros data. rewrite E. unfold owned_payloads, spawn.
  rewrite in_flat_map. split.
  - intros (p & Hp & Hd). apply in_map_iff in Hp.
    destruct Hp as (block & <- & Hin). exists block.
    destruct (Block.getBData (heap self block)) as [d| |]; try easy.
    destruct (owned_by address d) eqn:O; [|easy].
    destruct Hd as [<-|[]]. auto.
  - intros (block & Hin & Hg & Ho).
    exists (Block.getBData (heap self block)). split.
    + apply in_map_iff. now exists block.
    + rewrite Hg, Ho. now left.
Qed.

(** Every call of [getStarsByWalletAddress] on a reachable chain leaves
    an unhandled rejection: the continuation of the genesis block throws
    the error of the parser or the genesis error, and nothing catches
    it. *)
Theorem getStars_unhandled_rejection self address :
  reachable self ->
  exists reason rest,
    unhandled (getStarsByWalletAddress self address) = reason :: rest /\
    (reason = SyntaxError \/
     reason = Error "Genesis block doesn't contain data.").
Proof.
  intros Hr.
  assert (E : unhandled (getStarsByWalletAddress self address)
              = rejections (spawn self)).
  { unfold getStarsByWalletAddress.
    pose proof (fold_resume_lost address (spawn self) [] []) as F.
    destruct (fold_left _ _ _) as [stars lost]. exact F. }
  rewrite E. unfold spawn.
  pose proof (linked_nonempty _ (reachable_linked _ Hr)) as Hne.
  pose proof (linked_heights _ (reachable_linked _ Hr) O) as Hh.
  destruct (chain self) as [|g l]; [easy|].
  specialize (Hh g eq_refl). cbn [map rejections flat_map].
  unfold Block.getBData at 1. rewrite Hh. cbn [Z.of_nat Z.eqb].
  destruct (JSON_parse _); cbn [app]; eauto.
Qed.

(** ** The chain from its constructor *)

(** A chain fresh from its constructor, whatever the clock: one block,
    chain height 0; the block has height 0, no previous hash, the time of
    the clock as text and the encoded genesis payload; it passes its
    check, and its data is never handed out. *)
Theorem new_chain_genesis now :
  let self := new now in
  chain self = [O] /\
  getChainHeight self = Resolved 0 /\
  Block.height (heap self O) = 0 /\
  Block.previousBlockHash (heap self O) = None /\
  Block.time (heap self O) = Block.TStr (seconds_text now) /\
  Block.body (heap self O)
  = Buffer.hex (JSON.stringify (JSON.JObj [("data", JSON.JStr "Genesis Block")])) /\
  Block.validate (heap self O) = Resolved true /\
  validateChain self = Resolved [] /\
  (exists reason, Block.getBData (heap self O) = Rejected reason).
Proof.
  intros self.
  pose proof (reach_new now) as Hr. fold self in Hr.
  pose proof (intact_chain _ (reachable_intact _ Hr) O (or_introl eq_refl)) as Hs.
  repeat (split; [reflexivity|]).
  split; [exact Hs|]. split; [now apply reachable_valid|].
  unfold Block.getBData. destruct (JSON_parse _); cbn; eauto.
Qed.

End Coverage.

(** * The properties on a run of the program *)

Section Run.
Import Blockchain Scenario.

#[local] Existing Instance Ref.libs.

Lemma reachable_third : reachable third.
Proof.
  unfold third, second, first, submit.
  do 3 apply submitStar_reachable. apply reach_new.
Qed.

Lemma distinguishes_ref (a b : string) : distinguishes a b.
Proof. intros E. exact E. Qed.

(** The chain of the run has its heights and its links. *)
Lemma hash_links_witness :
  reachable third /\
  option_map Block.height (block_at third 3) = Some 3 /\
  option_map Block.previousBlockHash (block_at third 3)
  = option_map Block.hash (block_at third 2).
Proof.
  split; [exact reachable_third|].
  destruct (hash_links third reachable_third) as (Hh & _ & Hl).
  assert (E3 : block_at third 3 = Some (heap third 3%nat))
    by (vm_compute; reflexivity).
  assert (E2 : block_at third 2 = Some (heap third 2%nat))
    by (vm_compute; reflexivity).
  rewrite E3, E2. cbn [option_map]. split.
  - exact (f_equal Some (Hh 3%nat _ E3)).
  - exact (f_equal Some (proj1 (Hl 2%nat _ _ E2 E3))).
Defined.

(** A block fresh from its constructor passes its check once appended. *)
Lemma sealed_block_validates_witness :
  let self := fst (new_Block genesis (star "Deneb")) in
  Block.hash (heap self 1%nat) = None /\
  Block.validate (heap (fst (_addBlock self 1%nat 1700000100040)) 1%nat)
  = Resolved true.
Proof.
  intros self.
  assert (Hnull : Block.hash (heap self 1%nat) = None) by reflexivity.
  split; [exact Hnull|].
  exact (proj1 (sealed_block_validates self 1%nat 1700000100040 Hnull)).
Defined.

(** A new body for the first submission of the run is detected. *)
Lemma tamper_detected_witness :
  let self' := assign first 1%nat (NewBody cut_body) in
  Block.validate (heap self' 1%nat) = Resolved false /\
  validateChain self' = Resolved ["Block 1 is not valid."].
Proof.
  intros self'.
  assert (Hchain : chain first = [0%nat] ++ 1%nat :: [])
    by (vm_compute; reflexivity).
  assert (Hnodup : NoDup (chain first)).
  { rewrite Hchain. repeat constructor; cbn; intuition discriminate. }
  assert (Hsafe : forall x, In x (chain first) ->
            Num.isSafeInteger (Block.height (heap first x))).
  { intros x Hx. rewrite Hchain in Hx.
    destruct Hx as [<-|[<-|[]]]; vm_compute; intros E; discriminate E. }
  assert (Hold : safe_block (heap first 1%nat)).
  { split; [vm_compute; intros E; discriminate E | vm_compute; exact I]. }
  assert (Hnew : safe_block (mutate (NewBody cut_body) (heap first 1%nat))).
  { split; [vm_compute; intros E; discriminate E | vm_compute; exact I]. }
  assert (Hsealed : sealed (heap first 1%nat)) by (vm_compute; reflexivity).
  assert (Hchanges : changes (NewBody cut_body) (heap first 1%nat)).
  { intros E. vm_compute in E. discriminate E. }
  destruct (tamper_detected first 1%nat (NewBody cut_body) [0%nat] []
              (distinguishes_ref _ _) Hchain Hnodup Hsafe Hold Hnew Hsealed Hchanges)
    as (Hv & _ & _ & Hall).
  assert (Hvalid : validateChain first = Resolved [])
    by (vm_compute; reflexivity).
  split; [exact Hv|].
  refine (eq_trans (Hall Hvalid) _). vm_compute. reflexivity.
Defined.

(** C3, as stated, fails on the genesis block of the run: [NaN] is not
    the [null] its previous hash holds, and a [String] object is not the
    string its time holds, but [JSON.stringify] writes [null] for the one
    and the string for the other, so that the block passes its check after
    either assignment as it did before. *)
Lemma assignment_undetected :
  Raw.previousBlockHash genesis_block = Raw.Null /\
  Raw.previousBlockHash genesis_block_NaN = Raw.NaN /\
  Raw.time genesis_block = Raw.Str "1700000000" /\
  Raw.time genesis_block_boxed = Raw.StringObject "1700000000" /\
  Raw.validate genesis_block = Resolved true /\
  Raw.validate genesis_block_NaN = Resolved true /\
  Raw.validate genesis_block_boxed = Resolved true.
Proof. vm_compute. repeat split. Qed.

(** C4.  On the chain of the run, with two blocks of one owner and one of
    another: the promise of the query is resolved with the array when the
    array is empty and four continuations are suspended; the two payloads
    of the owner are in the array once the continuations have run, and the
    rejection of the genesis block is thrown where nothing handles it. *)
Theorem getStars_failing_input :
  let run := getStarsByWalletAddress third alice in
  at_resolve run = [] /\
  List.length (suspended run) = 4%nat /\
  at_rest run = [payload alice "Polaris"; payload alice "Vega"] /\
  unhandled run = [Error "Genesis block doesn't contain data."].
Proof. vm_compute. repeat split; reflexivity. Qed.

(** An append to the damaged chain is rejected and stays. *)
Lemma addBlock_failure_keeps_block_witness :
  let self := fst (new_Block damaged (star "Deneb")) in
  chain self <> [] /\
  snd (_addBlock self 1%nat 1700000100040)
  = Rejected (Error "Chain validation failed.") /\
  chain (fst (_addBlock self 1%nat 1700000100040)) = [0%nat; 1%nat].
Proof.
  intros self.
  assert (Hne : chain self <> []) by discriminate.
  assert (Herr : exists e errs,
            validateChain (fst (_addBlock self 1%nat 1700000100040))
            = Resolved (e :: errs)).
  { exists "Block 0 is not valid.", []. vm_compute. reflexivity. }
  destruct (addBlock_failure_keeps_block self 1%nat 1700000100040 Hne Herr)
    as (Hp & Hc & _).
  split; [exact Hne|]. split; [exact Hp|].
  refine (eq_trans Hc _). vm_compute. reflexivity.
Defined.


(** C7, as stated, fails on the genesis block of the run once its body has
    lost its last byte: the height is 0 and the promise is rejected with
    the error of the parser. *)
Lemma getBData_genesis_unparsable :
  Block.height (heap damaged 0%nat) = 0 /\
  Block.getBData (heap damaged 0%nat) = Rejected SyntaxError.
Proof. vm_compute. split; reflexivity. Qed.

(** The three outcomes of [getBData()] on blocks of the run. *)
Lemma getBData_outcomes_witness :
  Block.getBData (heap damaged 0%nat) = Rejected SyntaxError /\
  Block.getBData (heap genesis 0%nat)
  = Rejected (Error "Genesis block doesn't contain data.") /\
  Block.getBData (heap first 1%nat) = Resolved (payload alice "Polaris").
Proof.
  assert (H1 : JSON_parse (hex2ascii (Block.body (heap damaged 0%nat))) = None)
    by (vm_compute; reflexivity).
  assert (H2 : JSON_parse (hex2ascii (Block.body (heap genesis 0%nat)))
               = Some (JSON.JObj [("data", JSON.JStr "Genesis Block")]))
    by (vm_compute; reflexivity).
  assert (H3 : JSON_parse (hex2ascii (Block.body (heap first 1%nat)))
               = Some (payload alice "Polaris"))
    by (vm_compute; reflexivity).
  assert (H4 : Block.height (heap genesis 0%nat) = 0)
    by (vm_compute; reflexivity).
  assert (H5 : Block.height (heap first 1%nat) <> 0).
  { intros E. vm_compute in E. discriminate E. }
  split; [|split].
  - exact (proj1 (getBData_outcomes (heap damaged 0%nat)) H1).
  - exact (proj1 (proj2 (getBData_outcomes (heap genesis 0%nat))) _ H2 H4).
  - exact (proj2 (proj2 (getBData_outcomes (heap first 1%nat))) _ H3 H5).
Defined.

(** A chain whose second block does not point to the first is valid;
    a block with another height is reported with that height. *)
Lemma validateChain_errors_witness :
  Block.previousBlockHash (heap unlinked 1%nat)
  <> Block.hash (heap unlinked 0%nat) /\
  validateChain unlinked = Resolved [] /\
  validateChain renumbered = Resolved ["Block 12 is not valid."] /\
  validateChain damaged = Resolved ["Block 0 is not valid."].
Proof.
  assert (Hlink : Block.previousBlockHash (heap unlinked 1%nat)
                  <> Block.hash (heap unlinked 0%nat)).
  { intros E. vm_compute in E. discriminate E. }
  assert (Hchain : map (heap unlinked) (chain unlinked)
                   = [heap unlinked 0%nat; heap unlinked 1%nat])
    by (vm_compute; reflexivity).
  assert (H0 : Block.validate (heap unlinked 0%nat) = Resolved true)
    by (vm_compute; reflexivity).
  assert (H1 : Block.validate (heap unlinked 1%nat) = Resolved true)
    by (vm_compute; reflexivity).
  assert (Hsafe : forall r, In r (chain renumbered) ->
            Num.isSafeInteger (Block.height (heap renumbered r))).
  { intros r Hr.
    assert (Hc : chain renumbered = [0%nat; 1%nat]) by (vm_compute; reflexivity).
    rewrite Hc in Hr.
    destruct Hr as [<-|[<-|[]]]; vm_compute; intros E; discriminate E. }
  assert (Hsafe' : forall r, In r (chain damaged) ->
            Num.isSafeInteger (Block.height (heap damaged r))).
  { intros r Hr.
    assert (Hc : chain damaged = [0%nat]) by (vm_compute; reflexivity).
    rewrite Hc in Hr.
    destruct Hr as [<-|[]]; vm_compute; intros E; discriminate E. }
  split; [exact Hlink|]. split; [|split].
  - exact (proj2 (proj2 (validateChain_errors unlinked)) _ _ Hchain H0 H1).
  - refine (eq_trans (proj1 (proj2 (validateChain_errors renumbered)) Hsafe) _).
    vm_compute. reflexivity.
  - refine (eq_trans (proj1 (proj2 (validateChain_errors damaged)) Hsafe') _).
    vm_compute. reflexivity.
Defined.

(** C9, as stated, fails on the genesis block of the run: its time is a
    string of ten digits. *)
Lemma sealed_time_is_text :
  Block.time (heap genesis 0%nat) = Block.TStr "1700000000".
Proof. vm_compute. reflexivity. Qed.

Lemma sealed_time_is_seconds_text_witness :
  let self := fst (new_Block genesis (star "Deneb")) in
  1000 <= 1700000100040 /\
  Block.time (heap (fst (_addBlock self 1%nat 1700000100040)) 1%nat)
  = Block.TStr "1700000100".
Proof.
  intros self.
  assert (Hnow : 1000 <= 1700000100040) by lia.
  split; [exact Hnow|].
  refine (eq_trans
            (sealed_time_is_seconds_text self 1%nat 1700000100040 Hnow) _).
  vm_compute. reflexivity.
Defined.

(** The late submission of the run leaves the chain as it was. *)
Lemma submitStar_rejection_keeps_state_witness :
  after (submitStar genesis alice (challenge alice)
           (Ref.sign (challenge alice) alice) (star "Polaris")
           1700000301000 1700000301040) = genesis.
Proof.
  assert (Hrejected :
            promise (submitStar genesis alice (challenge alice)
                       (Ref.sign (challenge alice) alice) (star "Polaris")
                       1700000301000 1700000301040)
            = Rejected (Text "5 miutes have passed"))
    by (vm_compute; reflexivity).
  exact (proj1 (submitStar_rejection_keeps_state genesis alice (challenge alice)
                  (Ref.sign (challenge alice) alice) (star "Polaris")
                  1700000301000 1700000301040
                  (Text "5 miutes have passed") Hrejected)).
Defined.

End Run.

(** * More of the program on the run *)

Section CoverageRun.
Import Blockchain Scenario.

#[local] Existing Instance Ref.libs.

Lemma reachable_genesis : reachable genesis.
Proof. apply reach_new. Qed.

Lemma chain_third : chain third = [0; 1; 2; 3]%nat.
Proof. vm_compute. reflexivity. Qed.

Lemma challenge_time : timeInMessage (challenge alice) = Some 1700000000.
Proof. vm_compute. reflexivity. Qed.

Lemma signature_valid :
  bitcoinMessage_verify (challenge alice) alice (Ref.sign (challenge alice) alice)
  = Valid.
Proof. vm_compute. reflexivity. Qed.

Lemma chain_height_counts_blocks_witness :
  getChainHeight third = Resolved (Z.of_nat (List.length (chain third)) - 1).
Proof. exact (proj1 (chain_height_counts_blocks third reachable_third)). Defined.

Lemma initializeChain_once_witness :
  initializeChain third 1700000400000 = third.
Proof. exact (initializeChain_once third 1700000400000 reachable_third). Defined.

Lemma getBlockByHeight_index_witness :
  getBlockByHeight third (Z.of_nat 2) = Resolved (Some 2%nat) /\
  getBlockByHeight third 4 = Resolved None /\
  getBlockByHeight third (-1) = Resolved None.
Proof.
  destruct (getBlockByHeight_index third reachable_third) as [Hin Hout].
  assert (E : nth_error (chain third) 2 = Some 2%nat)
    by (rewrite chain_third; reflexivity).
  assert (Hlen : Z.of_nat (List.length (chain third)) <= 4)
    by (rewrite chain_third; cbn; lia).
  split; [exact (Hin 2%nat 2%nat E)|]. split.
  - exact (Hout 4 (or_intror Hlen)).
  - apply Hout. left. lia.
Defined.

(** The digest of bounded size has collisions, and finds the first
    submission of its chain by its hash. *)
Lemma getBlockByHash_finds_block_witness :
  Ref.checksum "Aa" = Ref.checksum "BB" /\
  Block.hash (heap short_first 1%nat) = Some "2338388681" /\
  getBlockByHash short_first "2338388681"
  = Resolved (Some 1%nat).
Proof.
  assert (Hc : Ref.checksum "Aa" = Ref.checksum "BB")
    by (vm_compute; reflexivity).
  assert (Hh : Block.hash (heap short_first 1%nat) = Some "2338388681")
    by (vm_compute; reflexivity).
  assert (Hr : reachable (H := Ref.short) short_first).
  { unfold short_first. apply submitStar_reachable. apply reach_new. }
  assert (Hchain : chain short_first = [0%nat; 1%nat])
    by (vm_compute; reflexivity).
  assert (Hin : In 1%nat (chain short_first))
    by (rewrite Hchain; cbn; auto).
  assert (Hfree : forall r', In r' (chain short_first) ->
            distinguishes (H := Ref.short)
              (digest_text (heap short_first r'))
              (digest_text (heap short_first 1%nat))).
  { intros r' Hr'. rewrite Hchain in Hr'.
    destruct Hr' as [<-|[<-|[]]].
    - intros E. vm_compute in E. discriminate E.
    - intros _. reflexivity. }
  split; [exact Hc|]. split; [exact Hh|].
  exact (@getBlockByHash_finds_block Ref.short short_first 1%nat _
           Hr Hin Hh Hfree).
Defined.

Lemma append_never_fails_witness :
  snd (_addBlock (fst (new_Block third (star "Deneb"))) 4%nat 1700000400000)
  = Resolved 4%nat.
Proof.
  assert (Hr : reachable (fst (new_Block third (star "Deneb"))))
    by (apply reach_new_Block, reachable_third).
  assert (Hn : (4 < next (fst (new_Block third (star "Deneb"))))%nat).
  { assert (E : next (fst (new_Block third (star "Deneb"))) = 5%nat)
      by (vm_compute; reflexivity).
    rewrite E. lia. }
  assert (Hf : ~ In 4%nat (chain (fst (new_Block third (star "Deneb"))))).
  { assert (E : chain (fst (new_Block third (star "Deneb")))
                = [0; 1; 2; 3]%nat) by (vm_compute; reflexivity).
    rewrite E. cbn. intuition discriminate. }
  exact (proj1 (append_never_fails _ 4%nat 1700000400000 Hr Hn Hf)).
Defined.

Lemma submitStar_within_window_witness :
  1700000300999 / 1000 - 1700000000 <= 300 /\
  promise (submitStar genesis alice (challenge alice)
             (Ref.sign (challenge alice) alice) (star "Polaris")
             1700000300999 1700000301000)
  = Resolved (next genesis).
Proof.
  assert (Hnow : 1000 <= 1700000300999) by lia.
  assert (Hle : 1700000300999 / 1000 - 1700000000 <= 300)
    by (vm_compute; discriminate).
  split; [exact Hle|].
  exact (proj1 (submitStar_within_window genesis alice (challenge alice)
                  (Ref.sign (challenge alice) alice) (star "Polaris")
                  1700000300999 1700000301000 1700000000
                  reachable_genesis Hnow challenge_time Hle signature_valid)).
Defined.

Lemma submitted_block_found_by_height_witness :
  getBlockByHeight
    (after (submitStar genesis alice (challenge alice)
              (Ref.sign (challenge alice) alice) (star "Polaris")
              1700000300999 1700000301000))
    (height genesis + 1)
  = Resolved (Some (next genesis)).
Proof.
  assert (Hnow : 1000 <= 1700000300999) by lia.
  assert (Hle : 1700000300999 / 1000 - 1700000000 <= 300)
    by (vm_compute; discriminate).
  exact (submitted_block_found_by_height genesis alice (challenge alice)
           (Ref.sign (challenge alice) alice) (star "Polaris")
           1700000300999 1700000301000 1700000000
           reachable_genesis Hnow challenge_time Hle signature_valid).
Defined.

Lemma submitted_block_decodes_witness :
  Block.getBData
    (heap (after (submitStar genesis alice (challenge alice)
                    (Ref.sign (challenge alice) alice) (star "Polaris")
                    1700000300999 1700000301000))
       (next genesis))
  = Resolved (star_data alice (challenge alice)
                (Ref.sign (challenge alice) alice) (star "Polaris")).
Proof.
  assert (Hnow : 1000 <= 1700000300999) by lia.
  assert (Hle : 1700000300999 / 1000 - 1700000000 <= 300)
    by (vm_compute; discriminate).
  assert (Hcodec :
            JSON_parse
              (hex2ascii
                 (Buffer.hex
                    (JSON.stringify
                       (star_data alice (challenge alice)
                          (Ref.sign (challenge alice) alice) (star "Polaris")))))
            = Some (star_data alice (challenge alice)
                      (Ref.sign (challenge alice) alice) (star "Polaris")))
    by (vm_compute; reflexivity).
  exact (submitted_block_decodes genesis alice (challenge alice)
           (Ref.sign (challenge alice) alice) (star "Polaris")
           1700000300999 1700000301000 1700000000
           reachable_genesis Hnow challenge_time Hle signature_valid Hcodec).
Defined.

Lemma replay_accepted_witness :
  let s1 := submitStar genesis alice (challenge alice)
              (Ref.sign (challenge alice) alice) (star "Polaris")
              1700000100000 1700000100040 in
  let s2 := submitStar (after s1) alice (challenge alice)
              (Ref.sign (challenge alice) alice) (star "Polaris")
              1700000200000 1700000200040 in
  promise s2 = Resolved (S (next genesis)) /\
  chain (after s2) = chain genesis ++ [next genesis; S (next genesis)].
Proof.
  intros s1 s2.
  assert (H1 : 1000 <= 1700000100000) by lia.
  assert (H2 : 1000 <= 1700000200000) by lia.
  assert (L1 : 1700000100000 / 1000 - 1700000000 <= 300)
    by (vm_compute; discriminate).
  assert (L2 : 1700000200000 / 1000 - 1700000000 <= 300)
    by (vm_compute; discriminate).
  destruct (replay_accepted genesis alice (challenge alice)
              (Ref.sign (challenge alice) alice) (star "Polaris")
              1700000100000 1700000100040 1700000200000 1700000200040
              1700000000 reachable_genesis H1 H2 challenge_time L1 L2
              signature_valid) as (_ & Hp & Hc & _).
  split; [exact Hp | exact Hc].
Defined.

Lemma submitStar_without_timestamp_witness :
  verified (submitStar genesis alice "no time here" "unsigned" (star "Polaris")
              9999999999999 9999999999999)
  = [("no time here", alice, "unsigned")].
Proof.
  assert (Hm : timeInMessage "no time here" = None)
    by (vm_compute; reflexivity).
  exact (proj1 (submitStar_without_timestamp genesis alice "no time here"
                  "unsigned" (star "Polaris") 9999999999999 9999999999999 Hm)).
Defined.

Lemma submitStar_never_settles_witness :
  let s := submitStar damaged alice (challenge alice)
             (Ref.sign (challenge alice) alice) (star "Polaris")
             1700000100000 1700000100040 in
  promise s = Pending /\
  chain (after s) = chain damaged ++ [next damaged] /\
  validateChain (after s) = Resolved ["Block 0 is not valid."].
Proof.
  intros s.
  assert (Hgate : elapsed_over 300 (currentTime 1700000100000)
                    (timeInMessage (challenge alice)) = false)
    by (vm_compute; reflexivity).
  assert (Halloc : forall r, In r (chain damaged) -> (r < next damaged)%nat).
  { intros r [<-|[]]. apply Nat.lt_0_1. }
  assert (Herr : validateChain damaged = Resolved ["Block 0 is not valid."])
    by (vm_compute; reflexivity).
  exact (proj2 (submitStar_never_settles damaged alice (challenge alice)
                  (Ref.sign (challenge alice) alice) (star "Polaris")
                  1700000100000 1700000100040 "Block 0 is not valid." []
                  Hgate)
           signature_valid Halloc Herr).
Defined.

Lemma challenge_round_trip_witness :
  timeInMessage (challenge alice) = Some (created / 1000).
Proof.
  assert (Ha : Str.contains ":" alice = false) by (vm_compute; reflexivity).
  assert (Hi : 1000 <= created) by (unfold created; lia).
  assert (E : requestMessageOwnershipVerification alice created
              = Resolved (challenge alice))
    by (vm_compute; reflexivity).
  exact (proj1 (challenge_round_trip alice created (challenge alice) Ha Hi E)).
Defined.

Lemma challenge_of_address_with_colon_witness :
  timeInMessage "urn:wallet:1700000000:starRegistry" = Num.parseInt "wallet".
Proof.
  assert (Ha : Str.contains ":" "urn" = false) by reflexivity.
  assert (Hb : Str.contains ":" "wallet" = false) by reflexivity.
  assert (E : requestMessageOwnershipVerification "urn:wallet" created
              = Resolved "urn:wallet:1700000000:starRegistry")
    by (vm_compute; reflexivity).
  exact (challenge_of_address_with_colon "urn" "wallet" created
           "urn:wallet:1700000000:starRegistry" Ha Hb E).
Defined.

Lemma block_text_determines_block_witness :
  Raw.with_hash Raw.Null genesis_block
  = Raw.of_block (Block.set_hash None (heap genesis 0%nat)).
Proof.
  assert (Ha : Raw.plain (Raw.with_hash Raw.Null genesis_block)).
  { vm_compute. repeat split; intros E; discriminate E. }
  assert (Hb : Raw.plain (Raw.of_block (Block.set_hash None (heap genesis 0%nat)))).
  { vm_compute. repeat split; intros E; discriminate E. }
  assert (E : JSON.stringify
                (Raw.own_properties (Raw.with_hash Raw.Null genesis_block))
              = JSON.stringify
                  (Raw.own_properties
                     (Raw.of_block (Block.set_hash None (heap genesis 0%nat)))))
    by (vm_compute; reflexivity).
  exact (block_text_determines_block _ _ Ha Hb E).
Defined.

Lemma hash_assignment_detected_witness :
  Block.validate (Block.set_hash None (heap first 1%nat)) = Resolved false.
Proof.
  assert (Hs : sealed (heap first 1%nat)) by (vm_compute; reflexivity).
  assert (Hv : None <> Block.hash (heap first 1%nat)).
  { intros E. vm_compute in E. discriminate E. }
  exact (hash_assignment_detected (heap first 1%nat) None Hs Hv).
Defined.

Lemma getStars_unhandled_rejection_witness :
  exists reason rest,
    unhandled (getStarsByWalletAddress third alice) = reason :: rest /\
    (reason = SyntaxError \/
     reason = Error "Genesis block doesn't contain data.").
Proof. exact (getStars_unhandled_rejection third alice reachable_third). Defined.

End CoverageRun.
